(** * Verification model of the agent execution orchestration core
    (aac: lifecycle manager, application context, aspect engine,
    workflow engine and the HTTP execution endpoints).

    Shallow embedding of the Python sources under src/src/aac.
    Costs (Python floats) are modelled as exact rationals [Q]; durations
    and counters (Python ints) as [Z].  Python exceptions are values of
    [exc]; a function that may raise returns [exc + A] (inl = raised). *)

From Stdlib Require Import List String Ascii Bool ZArith QArith Lia.
From Stdlib Require Import Sorting.Sorted Permutation.
Import ListNotations.
Set Warnings "-register-all".
Open Scope string_scope.
Open Scope list_scope.

(** ** Python exceptions *)

(** The exception classes the model distinguishes.  [CancelledError]
    (asyncio) and [KeyboardInterrupt] derive from [BaseException] but not
    from [Exception]; every other constructor is an [Exception]. *)
Inductive exc :=
| ValueError (msg : string)
| KeyError (msg : string)
| RuntimeError (msg : string)
| AttributeError (msg : string)
| OtherException (msg : string)
| CancelledError
| KeyboardInterrupt.

(** [isinstance(e, Exception)] *)
Definition is_Exception (e : exc) : bool :=
  match e with
  | CancelledError | KeyboardInterrupt => false
  | _ => true
  end.

(** [str(e)] *)
Definition exc_str (e : exc) : string :=
  match e with
  | ValueError m | KeyError m | RuntimeError m
  | AttributeError m | OtherException m => m
  | CancelledError | KeyboardInterrupt => ""
  end.

(** ** models/instance.py : AgentStatus *)

Inductive AgentStatus :=
| REGISTERED | INITIALIZING | READY | EXECUTING
| ERROR | DESTROYING | DESTROYED | LAZY.

Definition AgentStatus_eq_dec (a b : AgentStatus) : {a = b} + {a <> b}.
Proof. decide equality. Defined.

Definition status_eqb (a b : AgentStatus) : bool :=
  if AgentStatus_eq_dec a b then true else false.

Lemma status_eqb_eq (a b : AgentStatus) : status_eqb a b = true <-> a = b.
Proof. unfold status_eqb; destruct (AgentStatus_eq_dec a b); split; congruence. Qed.

(** ** lifecycle/manager.py : VALID_TRANSITIONS *)

Definition VALID_TRANSITIONS (s : AgentStatus) : list AgentStatus :=
  match s with
  | REGISTERED => [INITIALIZING; LAZY]
  | LAZY => [INITIALIZING]
  | INITIALIZING => [READY; ERROR]
  | READY => [EXECUTING; DESTROYING; ERROR]
  | EXECUTING => [READY; ERROR; DESTROYING]
  | ERROR => [INITIALIZING; DESTROYING]
  | DESTROYING => [DESTROYED; ERROR]
  | DESTROYED => []
  end.

(** [new_status in VALID_TRANSITIONS.get(old_status, set())] *)
Definition valid_transition (old new : AgentStatus) : bool :=
  existsb (status_eqb new) (VALID_TRANSITIONS old).

(** ** models/instance.py : AgentInstance (the fields the core uses) *)

(** A bound runtime is identified by a name; its behaviour is a parameter
    of the operations that call it. *)
Definition RuntimeId := string.

Record AgentInstance := mkAgent {
  a_name : string;
  a_runtime : option RuntimeId;
  a_status : AgentStatus;
  a_query_count : Z;
  a_total_cost_usd : Q;
  a_total_duration_ms : Z
}.

Definition set_status (a : AgentInstance) (s : AgentStatus) : AgentInstance :=
  mkAgent (a_name a) (a_runtime a) s (a_query_count a)
    (a_total_cost_usd a) (a_total_duration_ms a).

(** ** lifecycle/manager.py : LifecycleEvent, LifecycleManager.transition *)

Record LifecycleEvent := mkEvent {
  ev_agent_name : string;
  ev_old_status : AgentStatus;
  ev_new_status : AgentStatus;
  ev_error : option string
}.

(** A registered callback either returns or raises; its failure is
    logged and ignored, so only its outcome on an event matters. *)
Definition LifecycleCallback := LifecycleEvent -> option exc.

Record LifecycleManager := mkManager {
  lm_callbacks : list LifecycleCallback;
  lm_events : list LifecycleEvent;
  lm_max_events : nat
}.

(** [self._events[-n:]] *)
Definition last_n {A} (n : nat) (l : list A) : list A :=
  skipn (List.length l - n) l.

(** The callback loop: every callback is called, a raise is caught. *)
Fixpoint run_callbacks (cbs : list LifecycleCallback) (ev : LifecycleEvent)
  : unit :=
  match cbs with
  | [] => tt
  | cb :: rest =>
      match cb ev with
      | Some _ (* logger.warning *) => run_callbacks rest ev
      | None => run_callbacks rest ev
      end
  end.

(** [transition(agent, new_status, error=...)]: returns the manager and the
    agent object after the call, and the event or the raised error. *)
Definition transition (m : LifecycleManager) (agent : AgentInstance)
    (new_status : AgentStatus) (error : option string)
  : (LifecycleManager * AgentInstance) * (exc + LifecycleEvent) :=
  let old_status := a_status agent in
  if negb (valid_transition old_status new_status) then
    ((m, agent), inl (ValueError "transition not allowed"))
  else
    let agent' := set_status agent new_status in
    let event := mkEvent (a_name agent) old_status new_status error in
    let evs := lm_events m ++ [event] in
    let evs := if Nat.ltb (lm_max_events m) (List.length evs)
               then last_n (lm_max_events m) evs else evs in
    let m' := mkManager (lm_callbacks m) evs (lm_max_events m) in
    let _ := run_callbacks (lm_callbacks m) event in
    ((m', agent'), inr event).

(** ** Python dicts keyed by strings, as insertion-ordered association
    lists: assignment to an existing key replaces in place, a new key is
    appended. *)

Fixpoint dict_get {V} (k : string) (d : list (string * V)) : option V :=
  match d with
  | [] => None
  | (k', v) :: rest => if String.eqb k k' then Some v else dict_get k rest
  end.

Fixpoint dict_set {V} (k : string) (v : V) (d : list (string * V))
  : list (string * V) :=
  match d with
  | [] => [(k, v)]
  | (k', v') :: rest =>
      if String.eqb k k' then (k, v) :: rest else (k', v') :: dict_set k v rest
  end.

(** ** context.py : AgentApplicationContext *)

Record AgentManifest := mkManifest {
  m_name : string;
  m_runtime : RuntimeId
}.

(** [ExecutionResult] returned by [runtime.execute] (runtime/base.py). *)
Record AgentResult := mkResult {
  r_response : string;
  r_cost_usd : Q;
  r_duration_ms : Z;
  r_model : string;
  r_error : option string
}.

(** The [success] property: [self.error is None]. *)
Definition r_success (r : AgentResult) : bool :=
  match r_error r with None => true | Some _ => false end.

(** The returned dictionary of [execute]. *)
Record ExecuteResult := mkExecuteResult {
  x_execution_id : string;
  x_session_id : string;
  x_tx_id : Z;
  x_agent : string;
  x_result : string;
  x_success : bool;
  x_error : option string;
  x_cost_usd : Q;
  x_duration_ms : Z;
  x_model : string
}.

(** The context's state.  [ctx_status_writes] is a ghost log, not a field
    of the source: every assignment [agent.status = s] performed by the
    context appends (agent name, status before, status written). *)
Record Context := mkCtx {
  ctx_agents : list (string * AgentInstance);
  ctx_manifests : list (string * AgentManifest);
  ctx_has_factory : bool;
  ctx_tx_counter : Z;
  ctx_started : bool;
  ctx_status_writes : list (string * AgentStatus * AgentStatus)
}.

Definition ctx_with_agents (c : Context) (ag : list (string * AgentInstance))
  : Context :=
  mkCtx ag (ctx_manifests c) (ctx_has_factory c) (ctx_tx_counter c)
    (ctx_started c) (ctx_status_writes c).

(** [self._agents[name].status = s], recorded in the ghost log. *)
Definition write_status (c : Context) (name : string) (s : AgentStatus)
  : Context :=
  match dict_get name (ctx_agents c) with
  | None => c
  | Some a =>
      mkCtx (dict_set name (set_status a s) (ctx_agents c)) (ctx_manifests c)
        (ctx_has_factory c) (ctx_tx_counter c) (ctx_started c)
        (ctx_status_writes c ++ [(name, a_status a, s)])
  end.

(** Outcome of the awaited [agent.runtime.execute(...)] call. *)
Inductive RuntimeOutcome :=
| RReturn (r : AgentResult)
| RRaise (e : exc).

Section ContextOps.

(** [await agent.runtime.execute(prompt, ...)]: the runtime adapter, which
    observes the context as it is at the moment of the call. *)
Variable runtime_execute : Context -> RuntimeId -> string -> RuntimeOutcome.

(** [await agent.runtime.shutdown()]: [Some e] when it raises [e]. *)
Variable runtime_shutdown : Context -> RuntimeId -> option exc.

(** The steps of [AgentFactory.create] that may raise (runtime lookup,
    [runtime.initialize], tool resolution): [Some e] when one raises. *)
Variable create_failure : AgentManifest -> option exc.

(** factory.py : [AgentFactory.create(manifest)] without
    [skip_runtime_init]: a fresh instance, runtime bound, status READY. *)
Definition factory_create (m : AgentManifest) : exc + AgentInstance :=
  match create_failure m with
  | Some e => inl e
  | None => inr (mkAgent (m_name m) (Some (m_runtime m)) READY 0 0 0)
  end.

(** [get_agent(name)] *)
Definition get_agent (c : Context) (name : string) : exc + AgentInstance :=
  match dict_get name (ctx_agents c) with
  | None => inl (KeyError "agent not registered")
  | Some a => inr a
  end.

(** The lazy-initialisation block of [execute] (FR-5.3): the handle the
    rest of [execute] works on, after it is resolved. *)
Definition resolve_agent (c : Context) (name : string)
  : Context * (exc + AgentInstance) :=
  match get_agent c name with
  | inl e => (c, inl e)
  | inr agent =>
      if status_eqb (a_status agent) LAZY then
        match dict_get name (ctx_manifests c), ctx_has_factory c with
        | Some m, true =>
            match factory_create m with
            | inl e => (c, inl e)
            | inr new_agent =>
                (ctx_with_agents c (dict_set name new_agent (ctx_agents c)),
                 inr new_agent)
            end
        | _, _ => (c, inr agent)
        end
      else (c, inr agent)
  end.

(** [self._agents[name]] with its counters updated after a returned call. *)
Definition add_counters (c : Context) (name : string) (r : AgentResult)
  : Context :=
  match dict_get name (ctx_agents c) with
  | None => c
  | Some a =>
      ctx_with_agents c
        (dict_set name
           (mkAgent (a_name a) (a_runtime a) (a_status a)
              (a_query_count a + 1)
              (a_total_cost_usd a + r_cost_usd r)
              (a_total_duration_ms a + r_duration_ms r))
           (ctx_agents c))
  end.

(** [AgentApplicationContext.execute(agent_name, prompt, context=...)].
    [session_uuid] and [exec_uuid] are the two [_short_uuid()] values. *)
Definition execute (c : Context) (agent_name prompt session_uuid exec_uuid : string)
  : Context * (exc + ExecuteResult) :=
  match resolve_agent c agent_name with
  | (c1, inl e) => (c1, inl e)
  | (c1, inr agent) =>
      match a_runtime agent with
      | None => (c1, inl (RuntimeError "runtime not initialised"))
      | Some rt =>
          let session_id := "sess_" ++ session_uuid in
          let c2 := mkCtx (ctx_agents c1) (ctx_manifests c1) (ctx_has_factory c1)
                      (ctx_tx_counter c1 + 1) (ctx_started c1)
                      (ctx_status_writes c1) in
          let tx_id := ctx_tx_counter c2 in
          let execution_id := "exec_" ++ exec_uuid in
          let c3 := write_status c2 agent_name EXECUTING in
          match runtime_execute c3 rt prompt with
          | RRaise e => (c3, inl e)
          | RReturn r =>
              let c4 := write_status c3 agent_name READY in
              let c5 := add_counters c4 agent_name r in
              (c5, inr (mkExecuteResult execution_id session_id tx_id agent_name
                          (r_response r) (r_success r) (r_error r)
                          (r_cost_usd r) (r_duration_ms r) (r_model r)))
          end
      end
  end%string.

(** The loop of [AgentApplicationContext.shutdown] over the agent names
    (the dict is not resized during the loop). *)
Fixpoint shutdown_loop (c : Context) (names : list string)
  : Context * (exc + unit) :=
  match names with
  | [] => (c, inr tt)
  | name :: rest =>
      match dict_get name (ctx_agents c) with
      | None => shutdown_loop c rest
      | Some agent =>
          match a_runtime agent with
          | Some rt =>
              if negb (status_eqb (a_status agent) LAZY) then
                let c1 := write_status c name DESTROYING in
                match runtime_shutdown c1 rt with
                | None => shutdown_loop (write_status c1 name DESTROYED) rest
                | Some e =>
                    if is_Exception e then shutdown_loop c1 rest (* logged *)
                    else (c1, inl e)
                end
              else shutdown_loop c rest
          | None => shutdown_loop c rest
          end
      end
  end.

(** [AgentApplicationContext.shutdown()] *)
Definition shutdown (c : Context) : Context * (exc + unit) :=
  match shutdown_loop c (map fst (ctx_agents c)) with
  | (c1, inl e) => (c1, inl e)
  | (c1, inr tt) =>
      (mkCtx (ctx_agents c1) (ctx_manifests c1) (ctx_has_factory c1)
         (ctx_tx_counter c1) false (ctx_status_writes c1), inr tt)
  end.

End ContextOps.

(** ** aspects/engine.py : AspectEngine *)

(** [AspectContext] (the fields the engine reads or writes). *)
Record AspectContext := mkAspectCtx {
  ac_agent_name : string;
  ac_session_id : string;
  ac_tx_id : string;
  ac_event_type : string;
  ac_response : string;
  ac_error : option string
}.

Definition ac_set_event_type (c : AspectContext) (ev : string) : AspectContext :=
  mkAspectCtx (ac_agent_name c) (ac_session_id c) (ac_tx_id c) ev
    (ac_response c) (ac_error c).

(** A registered handler: its manifest data, and [await handler.handle]
    which may mutate the context and then return ([None]) or raise. *)
Record AspectHandler := mkHandler {
  h_name : string;
  h_order : Z;
  h_events : list string;
  h_target_agents : list string;
  h_handle : string -> AspectContext -> AspectContext * option exc
}.

(** Python's [list.sort(key=lambda h: h.order)] is a stable sort; it is
    modelled by a stable insertion sort (a stable sort's output is
    determined by its input). [insert_by_order] places [h] before the
    first element of strictly larger order. *)
Fixpoint insert_by_order (h : AspectHandler) (l : list AspectHandler)
  : list AspectHandler :=
  match l with
  | [] => [h]
  | y :: rest =>
      if (h_order h <? h_order y)%Z then h :: y :: rest
      else y :: insert_by_order h rest
  end.

Fixpoint sort_by_order_aux (acc l : list AspectHandler) : list AspectHandler :=
  match l with
  | [] => acc
  | x :: rest => sort_by_order_aux (insert_by_order x acc) rest
  end.

Definition sort_by_order (l : list AspectHandler) : list AspectHandler :=
  sort_by_order_aux [] l.

(** [AspectEngine.register]: append the new handler, then re-sort. *)
Definition register (handlers : list AspectHandler) (h : AspectHandler)
  : list AspectHandler :=
  sort_by_order (handlers ++ [h]).

(** The handler list after registering [rs] in order on a fresh engine. *)
Definition register_all (rs : list AspectHandler) : list AspectHandler :=
  fold_left register rs [].

Definition str_in (s : string) (l : list string) : bool :=
  existsb (String.eqb s) l.

(** [AspectEngine._matches] *)
Definition matches (h : AspectHandler) (event_type : string) (ctx : AspectContext)
  : bool :=
  if negb (match h_events h with [] => false | _ => true end)
     || str_in event_type (h_events h) then
    if negb (match h_target_agents h with [] => false | _ => true end)
       || str_in (ac_agent_name ctx) (h_target_agents h) then true
    else false
  else false.

(** The loop of [AspectEngine.apply]: the final context, the outcome
    (normal return, or the exception that escapes [except Exception]) and
    the handlers invoked, in invocation order. *)
Fixpoint apply_loop (hs : list AspectHandler) (event_type : string)
    (ctx : AspectContext)
  : AspectContext * (exc + unit) * list AspectHandler :=
  match hs with
  | [] => (ctx, inr tt, [])
  | h :: rest =>
      if matches h event_type ctx then
        let '(ctx1, r) := h_handle h event_type ctx in
        match r with
        | None =>
            let '(c2, o, t) := apply_loop rest event_type ctx1 in (c2, o, h :: t)
        | Some e =>
            if is_Exception e then (* logger.error *)
              let '(c2, o, t) := apply_loop rest event_type ctx1 in (c2, o, h :: t)
            else (ctx1, inl e, [h])
        end
      else apply_loop rest event_type ctx
  end.

(** [AspectEngine.apply(event_type, ctx)] *)
Definition apply (hs : list AspectHandler) (event_type : string)
    (ctx : AspectContext)
  : AspectContext * (exc + unit) * list AspectHandler :=
  apply_loop hs event_type (ac_set_event_type ctx event_type).

(** ** models/workflow.py : WorkflowStep, WorkflowSpec *)

Inductive StepType := AGENT | CONDITION | PARALLEL.
Inductive OnFailure := STOP | SKIP | RETRY.

Inductive WorkflowStep := mkStep {
  s_name : string;
  s_type : StepType;
  s_agent : option string;
  s_prompt : option string;
  s_input_from : option string;
  s_on_failure : OnFailure;
  s_retry_count : Z;
  s_steps : option (list WorkflowStep);
  s_condition : option string;
  s_if_true : option string;
  s_if_false : option string
}.

(** The values of the shared workflow context ([dict[str, Any]]). *)
Inductive Value :=
| VNone
| VBool (b : bool)
| VNum (q : Q)
| VStr (s : string)
| VDict (d : list (string * Value)).

Record WorkflowSpec := mkSpec {
  spec_steps : list WorkflowStep;
  spec_max_total_cost_usd : option Q;
  spec_max_total_duration_seconds : option Z;
  spec_context : list (string * Value)
}.

(** ** orchestration/engine.py : StepResult, WorkflowResult *)

Record StepResult := mkStepResult {
  sr_name : string;
  sr_agent : option string;
  sr_success : bool;
  sr_result : option string;
  sr_error : option string;
  sr_cost_usd : Q;
  sr_duration_ms : Z;
  sr_skipped : bool;
  sr_retries : Z
}.

(** [StepResult(name=..., ...)] with the dataclass defaults. *)
Definition step_result (name : string) : StepResult :=
  mkStepResult name None false None None 0 0 false 0.

Definition sr_with_error (r : StepResult) (e : option string) : StepResult :=
  mkStepResult (sr_name r) (sr_agent r) (sr_success r) (sr_result r) e
    (sr_cost_usd r) (sr_duration_ms r) (sr_skipped r) (sr_retries r).

(** An element of [wf_result.steps]: a [StepResult], or (see
    [aggregate_parallel]) any other object appended to the list. *)
Inductive StepEntry :=
| Entry (r : StepResult)
| NonResult (e : exc).

Record WorkflowResult := mkWorkflowResult {
  wr_workflow_name : string;
  wr_success : bool;
  wr_steps : list StepEntry;
  wr_total_cost_usd : Q;
  wr_total_duration_ms : Z;
  wr_context : list (string * Value);
  wr_error : option string
}.

(** ** Python truthiness and string helpers *)

Definition str_truthy (s : string) : bool := negb (String.eqb s "").

Definition opt_str_truthy (o : option string) : bool :=
  match o with Some s => str_truthy s | None => false end.

(** [bool(v)] *)
Definition truthy (v : Value) : bool :=
  match v with
  | VNone => false
  | VBool b => b
  | VNum q => negb (Qeq_bool q 0)
  | VStr s => str_truthy s
  | VDict d => match d with [] => false | _ => true end
  end.

Definition opt_value (o : option string) : Value :=
  match o with Some s => VStr s | None => VNone end.

Definition nl : string := String (Ascii.ascii_of_nat 10) EmptyString.

(** [condition.split(".")] *)
Fixpoint split_dot_aux (s cur : string) : list string :=
  match s with
  | EmptyString => [cur]
  | String c rest =>
      if Ascii.eqb c "."%char then cur :: split_dot_aux rest ""
      else split_dot_aux rest (cur ++ String c "")%string
  end.

Definition split_dot (s : string) : list string := split_dot_aux s "".

(** [s.replace(old, new)] for a non-empty [old]: non-overlapping
    occurrences, left to right. *)
Fixpoint replace_aux (fuel : nat) (old new s : string) : string :=
  match fuel with
  | O => s
  | S fuel' =>
      match s with
      | EmptyString => EmptyString
      | String c rest =>
          if String.prefix old s then
            new ++ replace_aux fuel'
                     old new (substring (String.length old)
                                (String.length s - String.length old) s)
          else String c (replace_aux fuel' old new rest)
      end
  end.

Definition str_replace (old new s : string) : string :=
  replace_aux (String.length s) old new s.

(** [str(v)] inside an f-string, for the values the model has. *)
Definition py_str (v : Value) : string :=
  match v with
  | VNone => "None"
  | VBool true => "True"
  | VBool false => "False"
  | VNum _ => "<number>"
  | VStr s => s
  | VDict _ => "<dict>"
  end.

(** [WorkflowEngine._evaluate_condition(condition, context)] *)
Fixpoint eval_parts (parts : list string) (current : Value) : bool :=
  match parts with
  | [] => truthy current
  | part :: rest =>
      match current with
      | VDict d =>
          match dict_get part d with
          | None | Some VNone => false
          | Some v => eval_parts rest v
          end
      | _ => false
      end
  end.

Definition evaluate_condition (condition : string) (context : list (string * Value))
  : bool :=
  eval_parts (split_dot condition) (VDict context).

(** [WorkflowEngine._find_step(name, steps)]: depth-first, first match.
    [find_in_step name st] is one iteration of its loop: [st] itself if
    its name matches, else the search of its sub-steps. *)
Fixpoint find_in_step (name : string) (st : WorkflowStep) {struct st}
  : option WorkflowStep :=
  match st with
  | mkStep n _ _ _ _ _ _ sub _ _ _ =>
      if String.eqb n name then Some st
      else
        match sub with
        | Some l =>
            (fix go (l : list WorkflowStep) : option WorkflowStep :=
               match l with
               | [] => None
               | x :: rest =>
                   match find_in_step name x with
                   | Some found => Some found
                   | None => go rest
                   end
               end) l
        | None => None
        end
  end.

Fixpoint find_step (name : string) (steps : list WorkflowStep)
  : option WorkflowStep :=
  match steps with
  | [] => None
  | st :: rest =>
      match find_in_step name st with
      | Some found => Some found
      | None => find_step name rest
      end
  end.

(** ** orchestration/engine.py : WorkflowEngine

    The state shared by the steps of one run: [wf_result.steps],
    [wf_result.context], and the number of [ctx.execute] calls made so far
    (which indexes the outcome of the next call). *)
Record WF := mkWF {
  wf_steps : list StepEntry;
  wf_context : list (string * Value);
  wf_calls : nat
}.

(** A state and error monad over [WF]. *)
Definition WM (A : Type) : Type := WF -> WF * (exc + A).

Definition ret {A} (a : A) : WM A := fun s => (s, inr a).
Definition raise {A} (e : exc) : WM A := fun s => (s, inl e).
Definition bind {A B} (m : WM A) (k : A -> WM B) : WM B :=
  fun s => match m s with
           | (s', inl e) => (s', inl e)
           | (s', inr a) => k a s'
           end.
Definition try_ {A} (m : WM A) : WM (exc + A) :=
  fun s => let '(s', r) := m s in (s', inr r).
Definition get_context : WM (list (string * Value)) :=
  fun s => (s, inr (wf_context s)).
Definition append_step (e : StepEntry) : WM unit :=
  fun s => (mkWF (wf_steps s ++ [e]) (wf_context s) (wf_calls s), inr tt).
Definition set_context (k : string) (v : Value) : WM unit :=
  fun s => (mkWF (wf_steps s) (dict_set k v (wf_context s)) (wf_calls s), inr tt).

Declare Scope wm_scope.
Notation "x <- m ;; k" := (bind m (fun x => k))
  (at level 61, m at next level, right associativity) : wm_scope.
Notation "m ;;; k" := (bind m (fun _ => k))
  (at level 61, right associativity) : wm_scope.
Local Open Scope wm_scope.

(** [{"success": ..., "result": ..., "error": ...}] stored under
    ["steps.<name>"]. *)
Definition result_value (r : StepResult) : Value :=
  VDict [("success", VBool (sr_success r)); ("result", opt_value (sr_result r));
         ("error", opt_value (sr_error r))].

(** [WorkflowEngine._resolve_prompt(step, wf_result)]: [inl] when it
    raises ([prev.get] on a non-dict value). *)
Definition resolve_prompt (step : WorkflowStep) (context : list (string * Value))
  : exc + option string :=
  match s_prompt step with
  | None => inr None
  | Some prompt =>
      if negb (str_truthy prompt) then inr None
      else
        let with_prev :=
          match s_input_from step with
          | Some f =>
              if str_truthy f then
                let prev := match dict_get ("steps." ++ f)%string context with
                            | Some v => v
                            | None => VDict []
                            end in
                match prev with
                | VDict d =>
                    let prev_result := match dict_get "result" d with
                                       | Some v => v
                                       | None => VStr ""
                                       end in
                    if truthy prev_result then
                      inr (prompt ++ nl ++ nl ++ "이전 작업 결과:" ++ nl
                             ++ py_str prev_result)%string
                    else inr prompt
                | _ => inl (AttributeError "object has no attribute 'get'")
                end
              else inr prompt
          | None => inr prompt
          end in
        match with_prev with
        | inl e => inl e
        | inr p =>
            inr (Some (fold_left
                         (fun p '(key, value) =>
                            match value with
                            | VStr v => str_replace ("{{" ++ key ++ "}}")%string v p
                            | _ => p
                            end) context p))
        end
  end.

(** [WorkflowEngine._check_limits(manifest, wf_result)] *)
Definition check_limits (spec : WorkflowSpec) (total_cost : Q) (total_duration : Z)
  : bool :=
  (match spec_max_total_cost_usd spec with
   | Some m => negb (Qeq_bool m 0) && negb (Qle_bool total_cost m)
   | None => false
   end)
  || (match spec_max_total_duration_seconds spec with
      | Some d => negb (d =? 0)%Z && (d * 1000 <? total_duration)%Z
      | None => false
      end).

(** The aggregation loop of [_execute_parallel_step] over the list that
    [asyncio.gather(..., return_exceptions=True)] returned: [inl e] is an
    exception object returned in place of a result.  Returns the
    accumulated cost, duration, success flag and error list. *)
Fixpoint aggregate_loop (items : list (exc + StepResult)) (total_cost : Q)
    (total_duration : Z) (all_success : bool) (errors : list string)
  : WM (Q * Z * bool * list string) :=
  match items with
  | [] => ret (total_cost, total_duration, all_success, errors)
  | inl e :: rest =>
      if is_Exception e then
        aggregate_loop rest total_cost total_duration false (errors ++ [exc_str e])
      else
        (* not an [Exception]: the [else] branch appends it, then
           [sub_result.cost_usd] raises *)
        append_step (NonResult e) ;;;
        raise (AttributeError "object has no attribute 'cost_usd'")
  | inr r :: rest =>
      append_step (Entry r) ;;;
      let total_cost := total_cost + sr_cost_usd r in
      let total_duration := Z.max total_duration (sr_duration_ms r) in
      let '(all_success, errors) :=
        if negb (sr_success r) && negb (sr_skipped r) then
          (false, if opt_str_truthy (sr_error r) then
                    match sr_error r with
                    | Some e => errors ++ [e]
                    | None => errors
                    end
                  else errors)
        else (all_success, errors) in
      set_context ("steps." ++ sr_name r)%string (result_value r) ;;;
      aggregate_loop rest total_cost total_duration all_success errors
  end.

(** The part of [_execute_parallel_step] after the [gather]. *)
Definition aggregate_parallel (step : WorkflowStep)
    (sub_results : list (exc + StepResult)) : WM StepResult :=
  acc <- aggregate_loop sub_results 0 0 true [] ;;
  let '(total_cost, total_duration, all_success, errors) := acc in
  ret (mkStepResult (s_name step) None all_success None
         (match errors with [] => None | _ => Some (String.concat "; " errors) end)
         total_cost total_duration false 0).

Section WorkflowOps.

(** [await self._ctx.execute(agent, prompt, context=wf_result.context)]:
    the outcome of the [n]-th call of the run (a returned result dict, or
    the raised exception). *)
Variable agent_call :
  nat -> string -> string -> list (string * Value) -> exc + ExecuteResult.

Definition call_agent (agent prompt : string) : WM ExecuteResult :=
  fun s =>
    (mkWF (wf_steps s) (wf_context s) (S (wf_calls s)),
     match agent_call (wf_calls s) agent prompt (wf_context s) with
     | inl e => inl e
     | inr r => inr r
     end).

(** The retry loop of [_execute_agent_step] ([while retries <=
    step.retry_count]), [n] being the number of iterations left.  [inl]:
    the step result returned from inside the loop; [inr]: the loop ended,
    with [retries] and [last_error]. *)
Fixpoint agent_attempts (step : WorkflowStep) (agent prompt : string) (n : nat)
    (retries : Z) (last_error : option string)
  : WM (StepResult + (Z * option string)) :=
  match n with
  | O => ret (inr (retries, last_error))
  | S n' =>
      r <- try_ (call_agent agent prompt) ;;
      match r with
      | inr result =>
          ret (inl (mkStepResult (s_name step) (Some agent) (x_success result)
                      (Some (x_result result)) (x_error result)
                      (x_cost_usd result) (x_duration_ms result) false retries))
      | inl e =>
          if is_Exception e then
            (* [await asyncio.sleep(0.1 * retries)] between attempts *)
            agent_attempts step agent prompt n' (retries + 1) (Some (exc_str e))
          else raise e
      end
  end.

(** [WorkflowEngine._execute_agent_step] *)
Definition execute_agent_step (step : WorkflowStep) : WM StepResult :=
  match s_agent step with
  | Some agent =>
      if negb (str_truthy agent) then
        ret (sr_with_error (step_result (s_name step)) (Some "agent 미지정"))
      else
        context <- get_context ;;
        match resolve_prompt step context with
        | inl e => raise e
        | inr None =>
            ret (sr_with_error (step_result (s_name step)) (Some "prompt 미지정"))
        | inr (Some prompt) =>
            if negb (str_truthy prompt) then
              ret (sr_with_error (step_result (s_name step)) (Some "prompt 미지정"))
            else
              o <- agent_attempts step agent prompt
                     (Z.to_nat (s_retry_count step + 1)) 0 None ;;
              match o with
              | inl r => ret r
              | inr (retries, last_error) =>
                  match s_on_failure step with
                  | SKIP =>
                      ret (mkStepResult (s_name step) (Some agent) false None
                             last_error 0 0 true (retries - 1))
                  | _ =>
                      ret (mkStepResult (s_name step) (Some agent) false None
                             last_error 0 0 false (retries - 1))
                  end
              end
        end
  | None => ret (sr_with_error (step_result (s_name step)) (Some "agent 미지정"))
  end.

(** [asyncio.gather( *tasks, return_exceptions=True)] over the sub-step
    coroutines: the sub-steps run in declaration order; an exception that
    ends a sub-step is returned in its place, except [KeyboardInterrupt],
    which escapes the gather. *)
Fixpoint gather (exec : WorkflowStep -> WM StepResult) (l : list WorkflowStep)
  : WM (list (exc + StepResult)) :=
  match l with
  | [] => ret []
  | sub :: rest =>
      r <- try_ (exec sub) ;;
      match r with
      | inl KeyboardInterrupt => raise KeyboardInterrupt
      | _ => rs <- gather exec rest ;; ret (r :: rs)
      end
  end.

(** [WorkflowEngine._execute_step] and the steps it dispatches to.  [fuel]
    bounds the recursion depth (a condition step can select itself); when
    it runs out the call raises, as Python's [RecursionError] does. *)
Fixpoint execute_step (spec : WorkflowSpec) (fuel : nat) (step : WorkflowStep)
  {struct fuel} : WM StepResult :=
  match fuel with
  | O => raise (OtherException "maximum recursion depth exceeded")
  | S fuel' =>
      match s_type step with
      | AGENT => execute_agent_step step
      | PARALLEL =>
          match s_steps step with
          | None | Some [] =>
              ret (mkStepResult (s_name step) None true None None 0 0 true 0)
          | Some subs =>
              items <- gather (execute_step spec fuel') subs ;;
              aggregate_parallel step items
          end
      | CONDITION =>
          match s_condition step with
          | Some condition =>
              if negb (str_truthy condition) then
                ret (sr_with_error (step_result (s_name step))
                       (Some "condition 미지정"))
              else
                context <- get_context ;;
                let condition_result := evaluate_condition condition context in
                let target := if condition_result then s_if_true step
                              else s_if_false step in
                match target with
                | Some t =>
                    if negb (str_truthy t) then
                      ret (mkStepResult (s_name step) None true None None 0 0 true 0)
                    else
                      match find_step t (spec_steps spec) with
                      | None =>
                          ret (sr_with_error (step_result (s_name step))
                                 (Some ("조건 분기 대상 스텝 '" ++ t ++ "' 미발견")%string))
                      | Some target_step => execute_step spec fuel' target_step
                      end
                | None =>
                    ret (mkStepResult (s_name step) None true None None 0 0 true 0)
                end
          | None =>
              ret (sr_with_error (step_result (s_name step)) (Some "condition 미지정"))
          end
      end
  end.

(** The message set when a ceiling is exceeded. *)
Definition ceiling_error : string := "비용 또는 시간 상한 초과".

(** The [for step in manifest.spec.steps] loop of [WorkflowEngine.run]:
    the state, running totals, and either the loop's [wf_result.error]
    or the exception that ended it. *)
Fixpoint run_loop (spec : WorkflowSpec) (fuel : nat) (steps : list WorkflowStep)
    (s : WF) (total_cost : Q) (total_duration : Z)
  : WF * Q * Z * (exc + option string) :=
  match steps with
  | [] => (s, total_cost, total_duration, inr None)
  | step :: rest =>
      match execute_step spec fuel step s with
      | (s1, inl e) => (s1, total_cost, total_duration, inl e)
      | (s1, inr r) =>
          let total_cost := total_cost + sr_cost_usd r in
          let total_duration := (total_duration + sr_duration_ms r)%Z in
          let s2 := mkWF (wf_steps s1 ++ [Entry r])
                      (dict_set ("steps." ++ s_name step)%string (result_value r)
                         (wf_context s1))
                      (wf_calls s1) in
          if check_limits spec total_cost total_duration then
            (s2, total_cost, total_duration, inr (Some ceiling_error))
          else if negb (sr_success r) && negb (sr_skipped r)
                  && match s_on_failure step with STOP => true | _ => false end then
            (s2, total_cost, total_duration,
             inr (Some ("스텝 '" ++ s_name step ++ "' 실패로 워크플로우 중단")%string))
          else run_loop spec fuel rest s2 total_cost total_duration
      end
  end.

(** [{**a, **b}] *)
Definition dict_merge {V} (a b : list (string * V)) : list (string * V) :=
  fold_left (fun d '(k, v) => dict_set k v d) b a.

(** [WorkflowEngine.run(manifest, initial_context=...)].  [elapsed_ms] is
    [int((time.monotonic() - start_time) * 1000)] at the end of the run.
    [inl]: an exception that is not an [Exception] escaped the run. *)
Definition run (spec : WorkflowSpec) (fuel : nat) (wf_name : string)
    (initial_context : list (string * Value)) (elapsed_ms : Z)
  : exc + WorkflowResult :=
  let s0 := mkWF [] (dict_merge (spec_context spec) initial_context) 0 in
  match run_loop spec fuel (spec_steps spec) s0 0 0 with
  | (s, total_cost, _, inr error) =>
      inr (mkWorkflowResult wf_name
             (match error with None => true | Some _ => false end)
             (wf_steps s) total_cost elapsed_ms (wf_context s) error)
  | (s, total_cost, _, inl e) =>
      if is_Exception e then
        inr (mkWorkflowResult wf_name false (wf_steps s) total_cost elapsed_ms
               (wf_context s) (Some (exc_str e)))
      else inl e
  end.

End WorkflowOps.

(** ** Asynchronous executions: the execution-record table and [cancel] *)

Inductive ExecStatus := running | completed | error | cancelled.

Record ExecutionRecord := mkExecRecord {
  er_execution_id : string;
  er_agent : string;
  er_status : ExecStatus
}.

(** The state of a background [asyncio.Task]. *)
Inductive TaskState := TaskPending | TaskDone | TaskCancelled.

Record Executions := mkExecutions {
  ex_records : list (string * ExecutionRecord);
  ex_tasks : list (string * TaskState)
}.

Definition set_record_status (r : ExecutionRecord) (st : ExecStatus)
  : ExecutionRecord :=
  mkExecRecord (er_execution_id r) (er_agent r) st.

(** Modelled from the spec: [AgentApplicationContext.get_execution]
    (the poll accessor, section 4.3 "Async mode"), absent from src/:
    the current record, or NotFound ([KeyError]). *)
Definition get_execution (x : Executions) (execution_id : string)
  : exc + ExecutionRecord :=
  match dict_get execution_id (ex_records x) with
  | Some r => inr r
  | None => inl (KeyError "execution not found")
  end.

(** Modelled from the spec: [AgentApplicationContext.cancel_execution]
    (the cancel accessor, section 4.3 "Async mode"), absent from src/.
    Not found: NotFound; found and still [running]: the background task
    is cancelled, the record marked [cancelled], [true]; found and
    terminal: [false], nothing changed. *)
Definition cancel_execution (x : Executions) (execution_id : string)
  : Executions * (exc + bool) :=
  match dict_get execution_id (ex_records x) with
  | None => (x, inl (KeyError "execution not found"))
  | Some r =>
      match er_status r with
      | running =>
          let tasks := match dict_get execution_id (ex_tasks x) with
                       | Some TaskPending =>
                           dict_set execution_id TaskCancelled (ex_tasks x)
                       | _ => ex_tasks x
                       end in
          (mkExecutions
             (dict_set execution_id (set_record_status r cancelled) (ex_records x))
             tasks, inr true)
      | _ => (x, inr false)
      end
  end.

(** The HTTP response of a route: a status code and a JSON body, here
    the ["status"] string and the [execution_id]. *)
Inductive HttpResponse :=
| HttpOk (status : string) (execution_id : string)
| HttpError (code : Z) (detail : string).

(** server/app.py : [DELETE /api/executions/{execution_id}]. *)
Definition cancel_execution_route (x : Executions) (execution_id : string)
  : Executions * HttpResponse :=
  match get_execution x execution_id with
  | inl e => (x, HttpError 404 (exc_str e))
  | inr _ =>
      match cancel_execution x execution_id with
      | (x1, inr true) => (x1, HttpOk "cancelled" execution_id)
      | (x1, inr false) => (x1, HttpOk "not_cancellable" execution_id)
      | (x1, inl e) => (x1, HttpError 500 (exc_str e))
      end
  end.

(** * Properties *)

(** ** Dict lemmas *)

Lemma dict_get_set_same {V} (k : string) (v : V) (d : list (string * V)) :
  dict_get k (dict_set k v d) = Some v.
Proof.
  induction d as [|[k' v'] rest IH]; simpl.
  - rewrite String.eqb_refl; reflexivity.
  - destruct (String.eqb k k') eqn:E; simpl.
    + rewrite String.eqb_refl; reflexivity.
    + rewrite E; exact IH.
Qed.

Lemma dict_get_set_other {V} (k k2 : string) (v : V) (d : list (string * V)) :
  k2 <> k -> dict_get k2 (dict_set k v d) = dict_get k2 d.
Proof.
  intros Hne; induction d as [|[k' v'] rest IH]; simpl.
  - destruct (String.eqb k2 k) eqn:E; [apply String.eqb_eq in E; congruence|reflexivity].
  - destruct (String.eqb k k') eqn:E; simpl.
    + apply String.eqb_eq in E; subst k'.
      destruct (String.eqb k2 k) eqn:E2; [apply String.eqb_eq in E2; congruence|reflexivity].
    + destruct (String.eqb k2 k'); [reflexivity|exact IH].
Qed.

(** ** Lifecycle transitions *)

(** C9: for every (source, target) pair absent from VALID_TRANSITIONS,
    [transition] raises a ValueError (the InvalidTransition error) and
    leaves both the agent (hence its status) and the manager (hence its
    event history) exactly as they were. *)
Theorem transition_invalid_unchanged (m : LifecycleManager) (agent : AgentInstance)
    (new_status : AgentStatus) (err : option string)
    (Hinvalid : valid_transition (a_status agent) new_status = false) :
  exists msg,
    transition m agent new_status err = ((m, agent), inl (ValueError msg)).
Proof.
  unfold transition; rewrite Hinvalid; simpl; eexists; reflexivity.
Qed.

Definition registered_agent : AgentInstance :=
  mkAgent "agent-a" (Some "claude-code") REGISTERED 0 0 0.

Definition empty_manager : LifecycleManager := mkManager [] [] 500.

Lemma transition_invalid_unchanged_witness :
  valid_transition (a_status registered_agent) EXECUTING = false /\
  exists msg,
    transition empty_manager registered_agent EXECUTING None
    = ((empty_manager, registered_agent), inl (ValueError msg)).
Proof.
  split; [reflexivity|].
  apply (transition_invalid_unchanged empty_manager registered_agent EXECUTING None).
  reflexivity.
Defined.

(** The spec's scenario: REGISTERED -> EXECUTING fails, the handle stays
    REGISTERED and no event is recorded. *)
Example transition_registered_executing :
  let '((m', a'), r) := transition empty_manager registered_agent EXECUTING None in
  a_status a' = REGISTERED /\ lm_events m' = [] /\
  match r with inl (ValueError _) => True | _ => False end.
Proof. repeat split. Qed.

(** ** Cancellation of asynchronous executions *)

(** C6: [cancel_execution] on an unknown id fails with NotFound (and the
    DELETE route answers 404); on a record still [running] it cancels the
    pending background task, marks the record [cancelled] and returns
    [true]; on a terminal record it returns [false] and changes nothing. *)
Theorem cancel_execution_cases (x : Executions) (execution_id : string) :
  match dict_get execution_id (ex_records x) with
  | None =>
      cancel_execution x execution_id = (x, inl (KeyError "execution not found"))
      /\ exists d, cancel_execution_route x execution_id = (x, HttpError 404 d)
  | Some r =>
      match er_status r with
      | running =>
          exists x',
            cancel_execution x execution_id = (x', inr true)
            /\ get_execution x' execution_id = inr (set_record_status r cancelled)
            /\ er_status (set_record_status r cancelled) = cancelled
            /\ dict_get execution_id (ex_tasks x')
               = match dict_get execution_id (ex_tasks x) with
                 | Some TaskPending => Some TaskCancelled
                 | t => t
                 end
      | _ =>
          cancel_execution x execution_id = (x, inr false)
          /\ get_execution x execution_id = inr r
      end
  end.
Proof.
  unfold cancel_execution, cancel_execution_route, get_execution.
  destruct (dict_get execution_id (ex_records x)) as [r|] eqn:Er.
  - destruct (er_status r) eqn:Es; try (split; reflexivity).
    eexists; split; [reflexivity|]; simpl.
    rewrite dict_get_set_same; split; [reflexivity|]; split; [reflexivity|].
    destruct (dict_get execution_id (ex_tasks x)) as [[]|] eqn:Et;
      try exact Et; rewrite dict_get_set_same; reflexivity.
  - split; [reflexivity|]; eexists; reflexivity.
Qed.

(** ** Synchronous execution *)

Lemma resolve_agent_stored (cf : AgentManifest -> option exc) (c c1 : Context)
    (name : string) (agent : AgentInstance) :
  resolve_agent cf c name = (c1, inr agent) ->
  dict_get name (ctx_agents c1) = Some agent.
Proof.
  unfold resolve_agent, get_agent.
  destruct (dict_get name (ctx_agents c)) as [a|] eqn:Ea; [|discriminate].
  destruct (status_eqb (a_status a) LAZY).
  - destruct (dict_get name (ctx_manifests c)) as [m|];
      destruct (ctx_has_factory c);
      try (intros H; inversion H; subst; exact Ea).
    destruct (factory_create cf m) as [e|na]; [discriminate|].
    intros H; inversion H; subst; simpl; apply dict_get_set_same.
  - intros H; inversion H; subst; exact Ea.
Qed.

(** The context as the runtime sees it when [execute] calls it. *)
Definition call_state (c1 : Context) (name : string) : Context :=
  write_status
    (mkCtx (ctx_agents c1) (ctx_manifests c1) (ctx_has_factory c1)
       (ctx_tx_counter c1 + 1) (ctx_started c1) (ctx_status_writes c1))
    name EXECUTING.

(** C3 (as the code does it): once the agent is resolved (lazily created
    if it was LAZY) and has a bound runtime, the runtime is called with the
    handle in EXECUTING; if the call returns, the handle is READY with
    query count + 1 and the call's cost and duration added to its
    cumulative counters; if the call raises, the exception propagates to
    the caller and the handle stays EXECUTING with its counters
    unchanged. *)
Theorem execute_status_and_counters
    (rex : Context -> RuntimeId -> string -> RuntimeOutcome)
    (cf : AgentManifest -> option exc) (c c1 : Context)
    (name prompt su eu : string) (agent : AgentInstance) (rt : RuntimeId)
    (Hres : resolve_agent cf c name = (c1, inr agent))
    (Hrt : a_runtime agent = Some rt) :
  dict_get name (ctx_agents (call_state c1 name))
    = Some (set_status agent EXECUTING) /\
  match rex (call_state c1 name) rt prompt with
  | RReturn r =>
      exists c' res,
        execute rex cf c name prompt su eu = (c', inr res) /\
        dict_get name (ctx_agents c')
        = Some (mkAgent (a_name agent) (a_runtime agent) READY
                  (a_query_count agent + 1)
                  (a_total_cost_usd agent + r_cost_usd r)
                  (a_total_duration_ms agent + r_duration_ms r))
  | RRaise e =>
      execute rex cf c name prompt su eu = (call_state c1 name, inl e)
  end.
Proof.
  pose proof (resolve_agent_stored cf c c1 name agent Hres) as Hst.
  assert (Hcall : dict_get name (ctx_agents (call_state c1 name))
                  = Some (set_status agent EXECUTING)).
  { unfold call_state, write_status; simpl; rewrite Hst; simpl.
    apply dict_get_set_same. }
  split; [exact Hcall|].
  unfold execute; rewrite Hres, Hrt; fold (call_state c1 name).
  destruct (rex (call_state c1 name) rt prompt) as [r|e]; [|reflexivity].
  do 2 eexists; split; [reflexivity|].
  assert (Hready : dict_get name
                     (ctx_agents (write_status (call_state c1 name) name READY))
                   = Some (set_status (set_status agent EXECUTING) READY)).
  { unfold write_status at 1; rewrite Hcall; simpl; apply dict_get_set_same. }
  unfold add_counters; rewrite Hready; simpl.
  rewrite dict_get_set_same; rewrite Hrt; reflexivity.
Qed.

Lemma execute_status_and_counters_witness :
  resolve_agent (fun _ => None)
    (mkCtx [("a", mkAgent "a" (Some "claude-code") READY 0 0 0)] [] true 0 true [])
    "a" = (mkCtx [("a", mkAgent "a" (Some "claude-code") READY 0 0 0)] [] true 0 true [],
           inr (mkAgent "a" (Some "claude-code") READY 0 0 0)) /\
  dict_get "a" (ctx_agents (call_state
    (mkCtx [("a", mkAgent "a" (Some "claude-code") READY 0 0 0)] [] true 0 true []) "a"))
  = Some (set_status (mkAgent "a" (Some "claude-code") READY 0 0 0) EXECUTING).
Proof.
  split; [reflexivity|].
  apply (execute_status_and_counters
           (fun _ _ _ => RReturn (mkResult "ok" (1#2) 100 "m" None))
           (fun _ => None)
           (mkCtx [("a", mkAgent "a" (Some "claude-code") READY 0 0 0)] [] true 0 true [])
           (mkCtx [("a", mkAgent "a" (Some "claude-code") READY 0 0 0)] [] true 0 true [])
           "a" "hi" "u1" "u2" (mkAgent "a" (Some "claude-code") READY 0 0 0)
           "claude-code"); reflexivity.
Defined.

(** A context with one READY agent bound to a runtime. *)
Definition one_agent_ctx : Context :=
  mkCtx [("a", mkAgent "a" (Some "claude-code") READY 0 0 0)] [] true 0 true [].

(** C3 counterexample: a runtime call that raises leaves the handle in
    EXECUTING (not ERROR) and the exception reaches the caller. *)
Lemma execute_raise_stays_executing :
  let '(c', r) := execute (fun _ _ _ => RRaise (OtherException "boom"))
                    (fun _ => None) one_agent_ctx "a" "hi" "u1" "u2" in
  option_map a_status (dict_get "a" (ctx_agents c')) = Some EXECUTING /\
  option_map a_status (dict_get "a" (ctx_agents c')) <> Some ERROR /\
  r = inl (OtherException "boom").
Proof. vm_compute; split; [reflexivity|split; [discriminate|reflexivity]]. Qed.

(** C5 (code defect): [shutdown] and then [execute] on the same agent make
    the context write the status pairs READY->DESTROYING,
    DESTROYING->DESTROYED, DESTROYED->EXECUTING and EXECUTING->READY, and
    DESTROYED->EXECUTING is not in VALID_TRANSITIONS: the context assigns
    [agent.status] directly, without [LifecycleManager.transition]. *)
Theorem shutdown_then_execute_leaves_destroyed :
  let '(c1, r1) := shutdown (fun _ _ => None) one_agent_ctx in
  let '(c2, r2) := execute (fun _ _ _ => RReturn (mkResult "ok" 0 0 "m" None))
                     (fun _ => None) c1 "a" "hi" "u1" "u2" in
  r1 = inr tt /\
  (exists res, r2 = inr res) /\
  ctx_status_writes c2 =
    [("a", READY, DESTROYING); ("a", DESTROYING, DESTROYED);
     ("a", DESTROYED, EXECUTING); ("a", EXECUTING, READY)] /\
  valid_transition DESTROYED EXECUTING = false.
Proof.
  vm_compute; split; [reflexivity|split; [eexists; reflexivity|split; reflexivity]].
Qed.

(** ** Aspect dispatch order *)

Definition ord_le (a b : AspectHandler) : Prop := (h_order a <= h_order b)%Z.

Definition with_order (k : Z) (h : AspectHandler) : bool := (h_order h =? k)%Z.

(** [l1] is a subsequence of [l2]. *)
Inductive subseq {A} : list A -> list A -> Prop :=
| subseq_nil : subseq [] []
| subseq_take x l1 l2 : subseq l1 l2 -> subseq (x :: l1) (x :: l2)
| subseq_skip x l1 l2 : subseq l1 l2 -> subseq l1 (x :: l2).

Create HintDb aspects.
#[local] Hint Constructors subseq : aspects.

Lemma subseq_nil_l {A} (l : list A) : subseq [] l.
Proof. induction l; auto with aspects. Qed.

#[local] Hint Resolve subseq_nil_l : aspects.

Lemma subseq_filter {A} (f : A -> bool) (l1 l2 : list A) :
  subseq l1 l2 -> subseq (filter f l1) (filter f l2).
Proof.
  induction 1; simpl; [constructor| |];
    destruct (f x); auto with aspects.
Qed.

Lemma subseq_Forall {A} (P : A -> Prop) (l1 l2 : list A) :
  subseq l1 l2 -> Forall P l2 -> Forall P l1.
Proof.
  induction 1; intros HF; auto; inversion HF; subst; auto.
Qed.

Lemma subseq_StronglySorted {A} (R : A -> A -> Prop) (l1 l2 : list A) :
  subseq l1 l2 -> StronglySorted R l2 -> StronglySorted R l1.
Proof.
  induction 1; intros HS; inversion HS; subst; auto.
  constructor; auto. eapply subseq_Forall; eauto.
Qed.

#[local] Instance ord_le_trans : Transitive ord_le.
Proof. unfold ord_le; intros a b c; lia. Qed.

Lemma insert_by_order_HdRel (y h : AspectHandler) (l : list AspectHandler) :
  ord_le y h -> HdRel ord_le y l -> HdRel ord_le y (insert_by_order h l).
Proof.
  intros Hyh Hd; destruct l as [|z l]; simpl; [constructor; exact Hyh|].
  inversion Hd; subst.
  destruct (h_order h <? h_order z)%Z; constructor; assumption.
Qed.

Lemma insert_by_order_sorted (h : AspectHandler) (l : list AspectHandler) :
  Sorted ord_le l -> Sorted ord_le (insert_by_order h l).
Proof.
  induction l as [|y l IH]; intros Hs; simpl; [repeat constructor|].
  destruct (h_order h <? h_order y)%Z eqn:E.
  - apply Z.ltb_lt in E; constructor; [exact Hs|constructor; unfold ord_le; lia].
  - apply Z.ltb_ge in E; inversion Hs; subst.
    constructor; [apply IH; assumption|].
    apply insert_by_order_HdRel; [unfold ord_le; lia|assumption].
Qed.

Lemma sort_by_order_aux_sorted (acc l : list AspectHandler) :
  Sorted ord_le acc -> Sorted ord_le (sort_by_order_aux acc l).
Proof.
  revert acc; induction l as [|x l IH]; intros acc Hs; simpl; auto.
  apply IH, insert_by_order_sorted, Hs.
Qed.

(** Elements after a strictly larger head have no element of order [k]
    below it. *)
Lemma filter_above_nil (k : Z) (y : AspectHandler) (l : list AspectHandler) :
  Sorted ord_le (y :: l) -> (k < h_order y)%Z ->
  filter (with_order k) (y :: l) = [].
Proof.
  intros Hs Hk.
  apply Sorted_StronglySorted in Hs; [|exact ord_le_trans].
  inversion Hs as [|? ? _ HF]; subst.
  simpl; unfold with_order at 1.
  replace (h_order y =? k)%Z with false by (symmetry; apply Z.eqb_neq; lia).
  clear Hs; induction HF as [|z l Hz HF IH]; simpl; auto.
  unfold ord_le in Hz; unfold with_order at 1.
  replace (h_order z =? k)%Z with false by (symmetry; apply Z.eqb_neq; lia).
  exact IH.
Qed.

Lemma filter_insert_by_order (k : Z) (h : AspectHandler) (l : list AspectHandler) :
  Sorted ord_le l ->
  filter (with_order k) (insert_by_order h l)
  = filter (with_order k) l ++ (if with_order k h then [h] else []).
Proof.
  induction l as [|y l IH]; intros Hs; simpl.
  - destruct (with_order k h); reflexivity.
  - destruct (h_order h <? h_order y)%Z eqn:E.
    + apply Z.ltb_lt in E; simpl.
      destruct (with_order k h) eqn:Eh.
      * unfold with_order in Eh; apply Z.eqb_eq in Eh; subst k.
        pose proof (filter_above_nil (h_order h) y l Hs E) as Hnil.
        simpl in Hnil; rewrite Hnil; reflexivity.
      * rewrite app_nil_r; reflexivity.
    + inversion Hs; subst; simpl.
      rewrite IH by assumption.
      destruct (with_order k y); reflexivity.
Qed.

Lemma filter_sort_by_order_aux (k : Z) (acc l : list AspectHandler) :
  Sorted ord_le acc ->
  filter (with_order k) (sort_by_order_aux acc l)
  = filter (with_order k) acc ++ filter (with_order k) l.
Proof.
  revert acc; induction l as [|x l IH]; intros acc Hs; simpl.
  - rewrite app_nil_r; reflexivity.
  - rewrite IH by (apply insert_by_order_sorted; exact Hs).
    rewrite filter_insert_by_order by exact Hs.
    rewrite <- app_assoc; destruct (with_order k x); reflexivity.
Qed.

Lemma register_all_snoc (rs : list AspectHandler) (h : AspectHandler) :
  register_all (rs ++ [h]) = register (register_all rs) h.
Proof. unfold register_all; rewrite fold_left_app; reflexivity. Qed.

Lemma register_all_sorted (rs : list AspectHandler) :
  Sorted ord_le (register_all rs).
Proof.
  induction rs as [|h rs _] using rev_ind; [constructor|].
  rewrite register_all_snoc; apply sort_by_order_aux_sorted; constructor.
Qed.

(** Registering keeps, within every order value, the registration order. *)
Lemma register_all_stable (k : Z) (rs : list AspectHandler) :
  filter (with_order k) (register_all rs) = filter (with_order k) rs.
Proof.
  induction rs as [|h rs IH] using rev_ind; [reflexivity|].
  rewrite register_all_snoc; unfold register, sort_by_order.
  rewrite filter_sort_by_order_aux by constructor; simpl.
  rewrite !filter_app, IH; reflexivity.
Qed.

(** The handlers [apply] invokes are a subsequence of the handler list. *)
Lemma apply_loop_subseq (hs : list AspectHandler) (event_type : string)
    (ctx : AspectContext) :
  subseq (snd (apply_loop hs event_type ctx)) hs.
Proof.
  revert ctx; induction hs as [|h rest IH]; intros ctx; simpl; [constructor|].
  destruct (matches h event_type ctx); [|apply subseq_skip, IH].
  destruct (h_handle h event_type ctx) as [ctx1 [e|]].
  - destruct (is_Exception e).
    + specialize (IH ctx1).
      destruct (apply_loop rest event_type ctx1) as [[c2 o] t]; simpl in *.
      constructor; exact IH.
    + simpl; constructor; apply subseq_nil_l.
  - specialize (IH ctx1).
    destruct (apply_loop rest event_type ctx1) as [[c2 o] t]; simpl in *.
    constructor; exact IH.
Qed.

(** C8: after registering the handlers [rs] (in that order, on a fresh
    engine), every dispatch invokes handlers in non-decreasing [order],
    and among handlers of equal order in registration order; the invoked
    handlers are taken, in order, from the registered list. *)
Theorem dispatch_order_ascending_stable (rs : list AspectHandler)
    (event_type : string) (ctx : AspectContext) :
  let invoked := snd (apply (register_all rs) event_type ctx) in
  Sorted ord_le invoked /\
  (forall k, subseq (filter (with_order k) invoked) (filter (with_order k) rs)) /\
  subseq invoked (register_all rs).
Proof.
  simpl; unfold apply.
  pose proof (apply_loop_subseq (register_all rs) event_type
                (ac_set_event_type ctx event_type)) as Hsub.
  split; [|split; [|exact Hsub]].
  - apply StronglySorted_Sorted.
    eapply subseq_StronglySorted; [exact Hsub|].
    apply Sorted_StronglySorted; [exact ord_le_trans|apply register_all_sorted].
  - intros k; rewrite <- (register_all_stable k rs).
    apply subseq_filter; exact Hsub.
Qed.

(** A handler that matches every event and agent and returns normally. *)
Definition plain_handler (name : string) (order : Z) : AspectHandler :=
  mkHandler name order [] [] (fun _ c => (c, None)).

Definition sample_ctx : AspectContext := mkAspectCtx "agent-a" "sess_1" "tx_001" "" "" None.

(** The spec's scenario: orders registered as 100, 10, 50 are dispatched
    as 10, 50, 100. *)
Example dispatch_order_100_10_50 :
  map h_order (snd (apply (register_all [plain_handler "h100" 100;
                                          plain_handler "h10" 10;
                                          plain_handler "h50" 50])
                      "PreQuery" sample_ctx)) = [10; 50; 100]%Z.
Proof. reflexivity. Qed.

(** ** Aspect failure isolation *)

(** The handler with every [Exception] it raises turned into a normal
    return (a [BaseException] that is not an [Exception] is kept). *)
Definition silence_exceptions (h : AspectHandler) : AspectHandler :=
  mkHandler (h_name h) (h_order h) (h_events h) (h_target_agents h)
    (fun ev c => let '(c', r) := h_handle h ev c in
                 (c', match r with
                      | Some e => if is_Exception e then None else Some e
                      | None => None
                      end)).

(** C2 (amended).
    - A dispatch behaves exactly as if every [Exception] a handler raises
      had been a normal return: the same handlers run (each later matching
      one included), the context ends the same, and no [Exception] reaches
      the caller.
    - Whenever the dispatch does not return normally, what escapes is a
      [BaseException] that is not an [Exception] (asyncio.CancelledError,
      KeyboardInterrupt), raised by a matching handler [h] that was
      reached; [h] is the last handler invoked and none after it runs.
    - Conversely, a matching handler that is reached (the handlers before
      it having let the dispatch go on) and raises such a [BaseException]
      makes the dispatch raise it, whatever handlers follow, none of which
      is invoked. *)
Theorem dispatch_isolates_exceptions (hs : list AspectHandler)
    (event_type : string) (ctx : AspectContext) :
  (let '(c1, o1, t1) := apply hs event_type ctx in
   let '(c2, o2, t2) := apply (map silence_exceptions hs) event_type ctx in
   c1 = c2 /\ o1 = o2 /\ map silence_exceptions t1 = t2 /\
   (o1 = inr tt \/ exists e, o1 = inl e /\ is_Exception e = false) /\
   match o1 with
   | inl e =>
       exists pre h post c0 t0,
         hs = pre ++ h :: post /\
         apply_loop pre event_type (ac_set_event_type ctx event_type) = (c0, inr tt, t0) /\
         matches h event_type c0 = true /\ h_handle h event_type c0 = (c1, Some e) /\
         t1 = t0 ++ [h]
   | inr _ => True
   end) /\
  (forall pre h post c0 t0 c1 e,
     hs = pre ++ h :: post ->
     apply_loop pre event_type (ac_set_event_type ctx event_type) = (c0, inr tt, t0) ->
     matches h event_type c0 = true -> h_handle h event_type c0 = (c1, Some e) ->
     is_Exception e = false ->
     apply hs event_type ctx = (c1, inl e, t0 ++ [h])).
Proof.
  split.
  - unfold apply; generalize (ac_set_event_type ctx event_type) as c.
    induction hs as [|h rest IH]; intros c; simpl.
    + repeat split; left; reflexivity.
    + assert (Hm : matches (silence_exceptions h) event_type c = matches h event_type c)
        by reflexivity.
      rewrite Hm; destruct (matches h event_type c) eqn:Emh.
      2:{ specialize (IH c).
          destruct (apply_loop rest event_type c) as [[ca oa] ta].
          destruct (apply_loop (map silence_exceptions rest) event_type c)
            as [[cb ob] tb].
          destruct IH as (Hc & Ho & Ht & Hd & Hx); repeat (split; [assumption|]).
          destruct oa as [e|]; [|exact I].
          destruct Hx as (pre & h' & post & c0 & t0 & -> & Hx).
          exists (h :: pre), h', post, c0, t0; split; [reflexivity|].
          simpl; rewrite Emh; exact Hx. }
      simpl; destruct (h_handle h event_type c) as [c1 [e|]] eqn:Eh.
      * destruct (is_Exception e) eqn:Ee.
        -- specialize (IH c1).
           destruct (apply_loop rest event_type c1) as [[ca oa] ta].
           destruct (apply_loop (map silence_exceptions rest) event_type c1)
             as [[cb ob] tb].
           destruct IH as (-> & -> & <- & Ho & Hx); repeat (split; [auto|]).
           destruct ob as [e'|]; [|exact I].
           destruct Hx as (pre & h' & post & c0 & t0 & -> & Hl & Hx).
           exists (h :: pre), h', post, c0, (h :: t0); split; [reflexivity|].
           simpl; rewrite Emh, Eh, Ee, Hl; split; [reflexivity|].
           destruct Hx as (Hx1 & Hx2 & ->); auto.
        -- rewrite Ee; simpl.
           split; [reflexivity|split; [reflexivity|split; [reflexivity|split]]].
           ++ right; exists e; auto.
           ++ exists [], h, rest, c, []; simpl; auto.
      * specialize (IH c1).
        destruct (apply_loop rest event_type c1) as [[ca oa] ta].
        destruct (apply_loop (map silence_exceptions rest) event_type c1)
          as [[cb ob] tb].
        destruct IH as (-> & -> & <- & Ho & Hx); repeat (split; [auto|]).
        destruct ob as [e'|]; [|exact I].
        destruct Hx as (pre & h' & post & c0 & t0 & -> & Hl & Hx).
        exists (h :: pre), h', post, c0, (h :: t0); split; [reflexivity|].
        simpl; rewrite Emh, Eh, Hl; split; [reflexivity|].
        destruct Hx as (Hx1 & Hx2 & ->); auto.
  - intros pre h post c0 t0 c1 e -> Hpre Hm Hh He; unfold apply.
    revert c0 t0 Hpre Hm Hh.
    generalize (ac_set_event_type ctx event_type) as c.
    induction pre as [|h0 pre IH]; intros c c0 t0 Hpre Hm Hh; simpl in *.
    + injection Hpre as <- <-; rewrite Hm, Hh, He; reflexivity.
    + destruct (matches h0 event_type c); [|exact (IH c c0 t0 Hpre Hm Hh)].
      destruct (h_handle h0 event_type c) as [ca [e0|]].
      * destruct (is_Exception e0); [|discriminate Hpre].
        destruct (apply_loop pre event_type ca) as [[cb ob] tb] eqn:L.
        injection Hpre as -> -> <-.
        rewrite (IH ca c0 tb L Hm Hh); reflexivity.
      * destruct (apply_loop pre event_type ca) as [[cb ob] tb] eqn:L.
        injection Hpre as -> -> <-.
        rewrite (IH ca c0 tb L Hm Hh); reflexivity.
Qed.

(** A handler that records nothing and is cancelled: it raises
    asyncio.CancelledError. *)
Definition cancelled_handler : AspectHandler :=
  mkHandler "cancelled" 1 [] [] (fun _ c => (c, Some CancelledError)).

(** C2 counterexample: with an order-1 handler raising CancelledError and
    an order-2 handler, the dispatch propagates the CancelledError and the
    order-2 handler is never invoked. *)
Lemma dispatch_cancelled_handler_stops :
  let '(_, o, t) := apply (register_all [cancelled_handler;
                                         plain_handler "recorder" 2])
                      "PreQuery" sample_ctx in
  o = inl CancelledError /\ map h_name t = ["cancelled"].
Proof. split; reflexivity. Qed.

(** ** Parallel aggregation *)

(** The sub-results that are [StepResult]s, in order. *)
Definition results_of (items : list (exc + StepResult)) : list StepResult :=
  flat_map (fun it => match it with inr r => [r] | inl _ => [] end) items.

(** What one gathered item adds to [errors]. *)
Definition item_errors (it : exc + StepResult) : list string :=
  match it with
  | inl e => [exc_str e]
  | inr r =>
      if negb (sr_success r) && negb (sr_skipped r) then
        match sr_error r with
        | Some e => if str_truthy e then [e] else []
        | None => []
        end
      else []
  end.

(** Whether one gathered item leaves [all_success] alone. *)
Definition item_ok (it : exc + StepResult) : bool :=
  match it with
  | inl _ => false
  | inr r => sr_success r || sr_skipped r
  end.

Definition sum_cost (rs : list StepResult) (acc : Q) : Q :=
  fold_left (fun a r => a + sr_cost_usd r) rs acc.

Definition max_duration (rs : list StepResult) (acc : Z) : Z :=
  fold_left (fun a r => Z.max a (sr_duration_ms r)) rs acc.

Definition store_results (rs : list StepResult) (ctx : list (string * Value))
  : list (string * Value) :=
  fold_left (fun c r => dict_set ("steps." ++ sr_name r)%string (result_value r) c) rs ctx.

Lemma str_app_assoc (a b c : string) : (a ++ b ++ c)%string = ((a ++ b) ++ c)%string.
Proof. induction a; simpl; congruence. Qed.

Lemma str_app_nil_r (a : string) : (a ++ "")%string = a.
Proof. induction a; simpl; congruence. Qed.

Lemma concat_in (sep x : string) (l : list string) :
  In x l -> exists pre post, String.concat sep l = (pre ++ x ++ post)%string.
Proof.
  induction l as [|a l IH]; intros Hin; [destruct Hin|].
  destruct Hin as [<-|Hin].
  - destruct l as [|b l].
    + exists "", ""; simpl; rewrite str_app_nil_r; reflexivity.
    + exists "", (sep ++ String.concat sep (b :: l))%string; reflexivity.
  - destruct (IH Hin) as (pre & post & Hc).
    destruct l as [|b l]; [destruct Hin|].
    exists (a ++ sep ++ pre)%string, post.
    change (String.concat sep (a :: b :: l))
      with (a ++ sep ++ String.concat sep (b :: l))%string.
    rewrite Hc, !str_app_assoc; reflexivity.
Qed.

Lemma aggregate_loop_eq (items : list (exc + StepResult)) :
  (forall e, In (inl e) items -> is_Exception e = true) ->
  forall tc td ok errs s,
  aggregate_loop items tc td ok errs s =
    (mkWF (wf_steps s ++ map Entry (results_of items))
          (store_results (results_of items) (wf_context s)) (wf_calls s),
     inr (sum_cost (results_of items) tc, max_duration (results_of items) td,
          ok && forallb item_ok items, errs ++ flat_map item_errors items)).
Proof.
  induction items as [|[e|r] rest IH]; intros Hexc tc td ok errs s.
  - destruct s; simpl; rewrite app_nil_r, andb_true_r, app_nil_r; reflexivity.
  - simpl. rewrite (Hexc e (or_introl eq_refl)).
    rewrite IH by (intros e' He'; apply Hexc; right; exact He').
    rewrite andb_false_r, <- app_assoc; reflexivity.
  - simpl. unfold bind at 1; simpl.
    assert (Hrest : forall e, In (inl e) rest -> is_Exception e = true)
      by (intros e' He'; apply Hexc; right; exact He').
    destruct (sr_success r) eqn:Es, (sr_skipped r) eqn:Ek; simpl;
      unfold bind, set_context; simpl;
      rewrite IH by exact Hrest; simpl;
      rewrite <- app_assoc; simpl;
      try reflexivity; try (rewrite andb_true_r, app_nil_r; reflexivity).
    rewrite andb_false_r.
    destruct (sr_error r) as [m|]; simpl; [|reflexivity].
    destruct (str_truthy m); simpl; rewrite <- ?app_assoc; reflexivity.
Qed.

Lemma aggregate_loop_exceptions (items : list (exc + StepResult)) :
  forall tc td ok errs s s' x,
  aggregate_loop items tc td ok errs s = (s', inr x) ->
  forall e, In (inl e) items -> is_Exception e = true.
Proof.
  induction items as [|[e0|r] rest IH]; intros tc td ok errs s s' x H e He;
    [destruct He| |].
  - simpl in H. destruct (is_Exception e0) eqn:E0; [|discriminate H].
    destruct He as [He|He]; [injection He as ->; exact E0|].
    exact (IH _ _ _ _ _ _ _ H e He).
  - destruct He as [He|He]; [discriminate He|].
    simpl in H; unfold bind, set_context in H; simpl in H.
    destruct (negb (sr_success r) && negb (sr_skipped r)); simpl in H;
      exact (IH _ _ _ _ _ _ _ H e He).
Qed.

(** X27: when every exception [gather] returned in place of a sub-result
    is an [Exception], the parallel step appends exactly the sub-results
    that are [StepResult]s (in order) to the step list, its cost is the sum
    and its duration the max over them only, its success is false if any
    sub-step raised, and its error is the [; ]-join of the collected
    errors, which contains the message of every raised exception. *)
Theorem parallel_exception_items (step : WorkflowStep)
    (items : list (exc + StepResult)) (s : WF)
    (Hexc : forall e, In (inl e) items -> is_Exception e = true) :
  exists r,
    aggregate_parallel step items s =
      (mkWF (wf_steps s ++ map Entry (results_of items))
            (store_results (results_of items) (wf_context s)) (wf_calls s),
       inr r) /\
    sr_cost_usd r = sum_cost (results_of items) 0 /\
    sr_duration_ms r = max_duration (results_of items) 0 /\
    sr_success r = forallb item_ok items /\
    sr_error r = match flat_map item_errors items with
                 | [] => None
                 | errs => Some (String.concat "; " errs)
                 end /\
    (forall e, In (inl e) items ->
       sr_success r = false /\
       exists pre post, sr_error r = Some (pre ++ exc_str e ++ post)%string).
Proof.
  unfold aggregate_parallel, bind.
  rewrite (aggregate_loop_eq items Hexc); cbn -[String.concat flat_map].
  eexists; split; [reflexivity|].
  cbn -[String.concat flat_map].
  split; [reflexivity|]; split; [reflexivity|]; split; [reflexivity|].
  split; [destruct (flat_map item_errors items); reflexivity|].
  intros e He; split.
  - clear Hexc; induction items as [|it rest IH]; [destruct He|].
    destruct He as [->|He]; [reflexivity|].
    simpl; rewrite (IH He); apply andb_false_r.
  - assert (Hin : In (exc_str e) (flat_map item_errors items)).
    { apply in_flat_map; exists (inl e); split; [exact He|left; reflexivity]. }
    destruct (flat_map item_errors items) as [|a l]; [destruct Hin|].
    destruct (concat_in "; " (exc_str e) (a :: l) Hin) as (pre & post & Hc).
    exists pre, post; rewrite Hc; reflexivity.
Qed.

Definition ok_result (name : string) : StepResult :=
  mkStepResult name (Some "agent-a") true (Some "OK") None (1#2) 100 false 0.

Definition par_step_of (subs : list WorkflowStep) : WorkflowStep :=
  mkStep "par" PARALLEL None None None STOP 0 (Some subs) None None None.

Lemma parallel_exception_items_witness :
  (forall e, In (inl e) [inl (RuntimeError "boom"); inr (ok_result "s2")]
             -> is_Exception e = true) /\
  exists r,
    aggregate_parallel (par_step_of []) [inl (RuntimeError "boom"); inr (ok_result "s2")]
      (mkWF [] [] 0) =
      (mkWF ([] ++ map Entry (results_of [inl (RuntimeError "boom"); inr (ok_result "s2")]))
            (store_results (results_of [inl (RuntimeError "boom"); inr (ok_result "s2")]) [])
            0, inr r) /\
    sr_cost_usd r = sum_cost (results_of [inl (RuntimeError "boom"); inr (ok_result "s2")]) 0 /\
    sr_duration_ms r = max_duration (results_of [inl (RuntimeError "boom"); inr (ok_result "s2")]) 0 /\
    sr_success r = forallb item_ok [inl (RuntimeError "boom"); inr (ok_result "s2")] /\
    sr_error r = match flat_map item_errors [inl (RuntimeError "boom"); inr (ok_result "s2")] with
                 | [] => None
                 | errs => Some (String.concat "; " errs)
                 end /\
    (forall e, In (inl e) [inl (RuntimeError "boom"); inr (ok_result "s2")] ->
       sr_success r = false /\
       exists pre post, sr_error r = Some (pre ++ exc_str e ++ post)%string).
Proof.
  assert (H : forall e, In (inl e) [inl (RuntimeError "boom"); inr (ok_result "s2")]
                        -> is_Exception e = true).
  { intros e He; simpl in He; destruct He as [He|[He|[]]]; inversion He; reflexivity. }
  split; [exact H|].
  exact (parallel_exception_items (par_step_of []) _ (mkWF [] [] 0) H).
Defined.

(** An agent step of the manifest. *)
Definition agent_step (name agent : string) : WorkflowStep :=
  mkStep name AGENT (Some agent) (Some "run") None STOP 0 None None None None.

Lemma aggregate_loop_non_exception (pre : list (exc + StepResult)) :
  (forall e', In (inl e') pre -> is_Exception e' = true) ->
  forall e post tc td ok errs s,
  is_Exception e = false ->
  aggregate_loop (pre ++ inl e :: post) tc td ok errs s =
    (mkWF (wf_steps s ++ map Entry (results_of pre) ++ [NonResult e])
          (store_results (results_of pre) (wf_context s)) (wf_calls s),
     inl (AttributeError "object has no attribute 'cost_usd'")).
Proof.
  induction pre as [|[e0|r] rest IH]; intros Hexc e post tc td ok errs s He.
  - destruct s; simpl; rewrite He; reflexivity.
  - simpl. rewrite (Hexc e0 (or_introl eq_refl)).
    apply IH; [intros e' He'; apply Hexc; right; exact He'|exact He].
  - simpl. unfold bind at 1; simpl.
    assert (Hrest : forall e', In (inl e') rest -> is_Exception e' = true)
      by (intros e' He'; apply Hexc; right; exact He').
    destruct (negb (sr_success r) && negb (sr_skipped r)); simpl;
      unfold bind, set_context; simpl;
      rewrite (IH Hrest e post _ _ _ _ _ He); simpl; rewrite <- app_assoc; reflexivity.
Qed.

(** A runtime whose every call is cancelled. *)
Definition cancelled_call (_ : nat) (_ _ : string) (_ : list (string * Value))
  : exc + ExecuteResult :=
  inl CancelledError.

(** C10 (code bug): [_execute_parallel_step] sorts what
    [asyncio.gather(..., return_exceptions=True)] returned with
    [isinstance(sub_result, Exception)], which misses a returned
    asyncio.CancelledError (a [BaseException] only).
    - In general: when the first gathered item that is not a [StepResult]
      is such an exception (the items before it being results or
      [Exception]s), the aggregation appends the results before it, then
      the exception object itself, to the step list, and raises
      AttributeError ([.cost_usd] of the exception) instead of returning a
      failed parallel result.
    - Concretely: a workflow made of one parallel group whose only
      sub-step's agent call is cancelled ends with the CancelledError as
      its only step entry, no result for the group, and the
      AttributeError's message as its error. *)
Theorem parallel_cancelled_sub_step_listed :
  (forall step pre e post s,
     (forall e', In (inl e') pre -> is_Exception e' = true) ->
     is_Exception e = false ->
     aggregate_parallel step (pre ++ inl e :: post) s =
       (mkWF (wf_steps s ++ map Entry (results_of pre) ++ [NonResult e])
             (store_results (results_of pre) (wf_context s)) (wf_calls s),
        inl (AttributeError "object has no attribute 'cost_usd'"))) /\
  run cancelled_call (mkSpec [par_step_of [agent_step "s1" "agent-a"]] None None [])
      10 "wf" [] 0 =
  inr (mkWorkflowResult "wf" false [NonResult CancelledError] 0 0 []
         (Some "object has no attribute 'cost_usd'")).
Proof.
  split.
  - intros step pre e post s Hexc He; unfold aggregate_parallel, bind.
    rewrite (aggregate_loop_non_exception pre Hexc e post _ _ _ _ _ He); reflexivity.
  - vm_compute; reflexivity.
Qed.

(** ** Conditional steps *)

Lemma split_dot_steps (rest : string) :
  split_dot ("steps." ++ rest)%string = "steps" :: split_dot rest.
Proof. reflexivity. Qed.

(** The context key written for a step is the flat string ["steps.<name>"],
    while [_evaluate_condition] looks up the segment ["steps"] first: a
    condition [steps.S.success] is false whenever the context has no key
    ["steps"], whatever the step [S] did. *)
Lemma steps_condition_false (name field : string) (context : list (string * Value)) :
  dict_get "steps" context = None ->
  evaluate_condition ("steps." ++ name ++ "." ++ field)%string context = false.
Proof.
  intros H; unfold evaluate_condition; rewrite split_dot_steps; simpl.
  rewrite H; reflexivity.
Qed.

(** A runtime whose every call succeeds, costing $0.5 and 100 ms. *)
Definition ok_call (n : nat) (agent _ : string) (_ : list (string * Value))
  : exc + ExecuteResult :=
  inr (mkExecuteResult "exec" "wf_sess" (Z.of_nat n + 1) agent "OK" true None
         (1#2) 100 "model").

Definition entry_name (e : StepEntry) : string :=
  match e with Entry r => sr_name r | NonResult _ => "" end.

(** The workflow of the conditional test: [s1] runs, then [decide]
    selects [s3] if [s1] succeeded and [s4] otherwise. *)
Definition condition_spec : WorkflowSpec :=
  mkSpec [agent_step "s1" "agent-a";
          mkStep "decide" CONDITION None None None STOP 0 None
            (Some "steps.s1.success") (Some "s3") (Some "s4");
          agent_step "s3" "agent-a";
          agent_step "s4" "agent-a"]
    None None [].

(** C4 (code bug): [s1] succeeds and its result is stored under
    ["steps.s1"] with [success = True], yet [decide] evaluates
    [steps.s1.success] to false and runs the if_false step [s4]: the entry
    recorded for [decide] is the result of [s4]. *)
Theorem condition_on_succeeded_step_takes_false_branch :
  exists wr,
    run ok_call condition_spec 10 "wf" [] 0 = inr wr /\
    dict_get "steps.s1" (wr_context wr) =
      Some (VDict [("success", VBool true); ("result", VStr "OK"); ("error", VNone)]) /\
    evaluate_condition "steps.s1.success" (wr_context wr) = false /\
    map entry_name (wr_steps wr) = ["s1"; "s4"; "s3"; "s4"].
Proof.
  eexists; split; [vm_compute; reflexivity|].
  split; [reflexivity|]; split; [reflexivity|reflexivity].
Qed.

(** ** Step lists only grow *)

(** A computation that only appends to [wf_result.steps]. *)
Definition extends {A} (m : WM A) : Prop :=
  forall s s' o, m s = (s', o) -> exists l, wf_steps s' = wf_steps s ++ l.

Lemma extends_ret {A} (a : A) : extends (ret a).
Proof. intros s s' o H; injection H as <- _; exists []; rewrite app_nil_r; reflexivity. Qed.

Lemma extends_raise {A} (e : exc) : extends (A := A) (raise e).
Proof. intros s s' o H; injection H as <- _; exists []; rewrite app_nil_r; reflexivity. Qed.

Lemma extends_get_context : extends get_context.
Proof. intros s s' o H; injection H as <- _; exists []; rewrite app_nil_r; reflexivity. Qed.

Lemma extends_append_step (e : StepEntry) : extends (append_step e).
Proof. intros s s' o H; injection H as <- _; exists [e]; reflexivity. Qed.

Lemma extends_set_context (k : string) (v : Value) : extends (set_context k v).
Proof. intros s s' o H; injection H as <- _; exists []; rewrite app_nil_r; reflexivity. Qed.

Lemma extends_bind {A B} (m : WM A) (k : A -> WM B) :
  extends m -> (forall a, extends (k a)) -> extends (bind m k).
Proof.
  intros Hm Hk s s' o H; unfold bind in H.
  destruct (m s) as [s1 [e|a]] eqn:E.
  - injection H as <- _; exact (Hm _ _ _ E).
  - destruct (Hm _ _ _ E) as [l1 H1]; destruct (Hk a _ _ _ H) as [l2 H2].
    exists (l1 ++ l2); rewrite H2, H1, app_assoc; reflexivity.
Qed.

Lemma extends_try {A} (m : WM A) : extends m -> extends (try_ m).
Proof.
  intros Hm s s' o H; unfold try_ in H.
  destruct (m s) as [s1 r] eqn:E; injection H as <- _; exact (Hm _ _ _ E).
Qed.

Create HintDb extends.
#[local] Hint Resolve extends_ret extends_raise extends_get_context extends_append_step
  extends_set_context extends_try : extends.

Lemma extends_call_agent agent_call (agent prompt : string) :
  extends (call_agent agent_call agent prompt).
Proof.
  intros s s' o H; unfold call_agent in H; injection H as <- _.
  exists []; rewrite app_nil_r; reflexivity.
Qed.
#[local] Hint Resolve extends_call_agent : extends.

Ltac extends_step :=
  repeat match goal with
         | |- extends (bind _ _) => apply extends_bind; [auto with extends|intros ?]
         | |- extends (match ?x with _ => _ end) => destruct x
         | |- extends (if ?b then _ else _) => destruct b
         | |- extends (let '(_, _) := ?x in _) => destruct x
         end; auto with extends.

Lemma extends_agent_attempts agent_call (step : WorkflowStep) (agent prompt : string)
    (n : nat) : forall retries last_error,
  extends (agent_attempts agent_call step agent prompt n retries last_error).
Proof.
  induction n as [|n IH]; intros retries last_error; simpl; extends_step.
Qed.
#[local] Hint Resolve extends_agent_attempts : extends.

Lemma extends_execute_agent_step agent_call (step : WorkflowStep) :
  extends (execute_agent_step agent_call step).
Proof. unfold execute_agent_step; extends_step. Qed.
#[local] Hint Resolve extends_execute_agent_step : extends.

Lemma extends_aggregate_loop (items : list (exc + StepResult)) :
  forall tc td ok errs, extends (aggregate_loop items tc td ok errs).
Proof.
  induction items as [|[e|r] rest IH]; intros tc td ok errs; simpl; extends_step.
Qed.
#[local] Hint Resolve extends_aggregate_loop : extends.

Lemma extends_aggregate_parallel (step : WorkflowStep) (items : list (exc + StepResult)) :
  extends (aggregate_parallel step items).
Proof. unfold aggregate_parallel; extends_step. Qed.
#[local] Hint Resolve extends_aggregate_parallel : extends.

Lemma extends_gather (exec : WorkflowStep -> WM StepResult) :
  (forall st, extends (exec st)) -> forall l, extends (gather exec l).
Proof.
  intros Hexec l; induction l as [|st rest IH]; simpl; extends_step.
Qed.

Lemma extends_execute_step agent_call (spec : WorkflowSpec) (fuel : nat) :
  forall step, extends (execute_step agent_call spec fuel step).
Proof.
  induction fuel as [|fuel IH]; intros step; simpl; [auto with extends|].
  destruct (s_type step); [auto with extends| |].
  - extends_step.
  - destruct (s_steps step) as [[|sub subs]|]; [auto with extends| |auto with extends].
    apply extends_bind; [apply extends_gather; exact IH|intros; auto with extends].
Qed.

(** ** Cost and duration ceilings *)

Lemma negb_Qeq_bool_true (m : Q) : negb (Qeq_bool m 0) = true <-> ~ m == 0.
Proof.
  rewrite negb_true_iff; split.
  - intros H E; apply Qeq_bool_iff in E; congruence.
  - intros H; destruct (Qeq_bool m 0) eqn:E; [apply Qeq_bool_iff in E; contradiction|reflexivity].
Qed.

Lemma negb_Qle_bool_true (c m : Q) : negb (Qle_bool c m) = true <-> m < c.
Proof.
  rewrite negb_true_iff; split.
  - intros H; apply Qnot_le_lt; intros L; apply Qle_bool_iff in L; congruence.
  - intros H; destruct (Qle_bool c m) eqn:E; [|reflexivity].
    apply Qle_bool_iff in E; exfalso; exact (Qlt_not_le _ _ H E).
Qed.

Lemma cost_ceiling_true (o : option Q) (c : Q) :
  match o with
  | Some m => negb (Qeq_bool m 0) && negb (Qle_bool c m)
  | None => false
  end = true <-> exists m, o = Some m /\ ~ m == 0 /\ m < c.
Proof.
  destruct o as [m|]; split; intros H.
  - apply andb_true_iff in H; destruct H as [H1 H2].
    apply negb_Qeq_bool_true in H1; apply negb_Qle_bool_true in H2; eauto.
  - destruct H as (m' & E & H1 & H2); injection E as <-.
    apply andb_true_iff; rewrite negb_Qeq_bool_true, negb_Qle_bool_true; auto.
  - discriminate H.
  - destruct H as (m' & E & _); discriminate E.
Qed.

Lemma duration_ceiling_true (o : option Z) (t : Z) :
  match o with
  | Some d => negb (d =? 0)%Z && (d * 1000 <? t)%Z
  | None => false
  end = true <-> exists d, o = Some d /\ d <> 0%Z /\ (d * 1000 < t)%Z.
Proof.
  destruct o as [d|]; split; intros H.
  - apply andb_true_iff in H; destruct H as [H1 H2].
    apply negb_true_iff, Z.eqb_neq in H1; apply Z.ltb_lt in H2; eauto.
  - destruct H as (d' & E & H1 & H2); injection E as <-.
    apply andb_true_iff; rewrite negb_true_iff, Z.eqb_neq, Z.ltb_lt; auto.
  - discriminate H.
  - destruct H as (d' & E & _); discriminate E.
Qed.

(** [_check_limits] holds exactly when a declared, nonzero ceiling is
    strictly exceeded (a ceiling of 0 is falsy and never checked). *)
Lemma check_limits_true (spec : WorkflowSpec) (total_cost : Q) (total_duration : Z) :
  check_limits spec total_cost total_duration = true <->
  (exists m, spec_max_total_cost_usd spec = Some m /\ ~ m == 0 /\ m < total_cost) \/
  (exists d, spec_max_total_duration_seconds spec = Some d /\ d <> 0%Z /\
             (d * 1000 < total_duration)%Z).
Proof.
  unfold check_limits; rewrite orb_true_iff, cost_ceiling_true, duration_ceiling_true.
  reflexivity.
Qed.

(** Three sequential agent steps, each costing $0.5, under a ceiling of
    [max_cost] dollars. *)
Definition three_steps_spec (max_cost : option Q) : WorkflowSpec :=
  mkSpec [agent_step "s1" "agent-a"; agent_step "s2" "agent-a"; agent_step "s3" "agent-a"]
    max_cost None [].

(** The manifest with every ceiling that [_check_limits] treats as unset
    (absent, or a falsy 0) removed. *)
Definition enforced_cost_ceiling (o : option Q) : option Q :=
  match o with
  | Some m => if Qeq_bool m 0 then None else Some m
  | None => None
  end.

Definition enforced_duration_ceiling (o : option Z) : option Z :=
  match o with
  | Some d => if (d =? 0)%Z then None else Some d
  | None => None
  end.

Definition without_unset_ceilings (spec : WorkflowSpec) : WorkflowSpec :=
  mkSpec (spec_steps spec) (enforced_cost_ceiling (spec_max_total_cost_usd spec))
    (enforced_duration_ceiling (spec_max_total_duration_seconds spec))
    (spec_context spec).

Lemma check_limits_without_unset (spec : WorkflowSpec) (tc : Q) (td : Z) :
  check_limits spec tc td = check_limits (without_unset_ceilings spec) tc td.
Proof.
  unfold check_limits, without_unset_ceilings; simpl; f_equal.
  - destruct (spec_max_total_cost_usd spec) as [m|]; simpl; [|reflexivity].
    destruct (Qeq_bool m 0) eqn:Em; simpl; [reflexivity|rewrite Em; reflexivity].
  - destruct (spec_max_total_duration_seconds spec) as [d|]; simpl; [|reflexivity].
    destruct (d =? 0)%Z eqn:Ed; simpl; [reflexivity|rewrite Ed; reflexivity].
Qed.

(** Only the steps of the manifest matter to [execute_step]. *)
Lemma execute_step_same_steps agent_call (spec spec' : WorkflowSpec)
    (E : spec_steps spec = spec_steps spec') :
  forall fuel st s,
  execute_step agent_call spec fuel st s = execute_step agent_call spec' fuel st s.
Proof.
  induction fuel as [|fuel IH]; intros st s; [reflexivity|].
  assert (G : forall l s, gather (execute_step agent_call spec fuel) l s =
                          gather (execute_step agent_call spec' fuel) l s).
  { induction l as [|x l IHl]; intros s0; [reflexivity|].
    simpl; unfold bind, try_; rewrite IH.
    destruct (execute_step agent_call spec' fuel x s0) as [s1 v].
    destruct v as [[]|v]; rewrite ?IHl; reflexivity. }
  simpl; destruct (s_type st).
  - reflexivity.
  - destruct (s_condition st) as [cond|]; [|reflexivity].
    destruct (negb (str_truthy cond)); [reflexivity|].
    unfold bind, get_context; rewrite E.
    destruct (if evaluate_condition cond (wf_context s) then s_if_true st else s_if_false st)
      as [t|]; [|reflexivity].
    destruct (negb (str_truthy t)); [reflexivity|].
    destruct (find_step t (spec_steps spec')); [apply IH|reflexivity].
  - destruct (s_steps st) as [[|sub subs]|]; [reflexivity| |reflexivity].
    unfold bind; rewrite G; reflexivity.
Qed.

Lemma run_loop_without_unset agent_call (spec : WorkflowSpec) (fuel : nat)
    (steps : list WorkflowStep) :
  forall s tc td,
  run_loop agent_call spec fuel steps s tc td =
  run_loop agent_call (without_unset_ceilings spec) fuel steps s tc td.
Proof.
  induction steps as [|step rest IH]; intros s tc td; [reflexivity|].
  simpl; rewrite (execute_step_same_steps agent_call spec (without_unset_ceilings spec)
                    eq_refl fuel step s).
  destruct (execute_step agent_call (without_unset_ceilings spec) fuel step s)
    as [s1 [e|r]]; [reflexivity|].
  rewrite check_limits_without_unset, IH; reflexivity.
Qed.

(** C7 (amended): after a top-level step, the running cost and duration
    are checked against the ceilings.
    - When one of them strictly exceeds a declared NONZERO ceiling, the
      loop stops with the ceiling error: the results already in the step
      list are kept, this step's result is appended, and no later step
      runs (no further agent call is made).
    - Otherwise the ceilings play no part: the loop goes on exactly as the
      STOP policy alone decides (stop on a failed, non-skipped STOP step,
      else run the remaining steps from the updated state).
    - A ceiling that is absent or 0 is never enforced: every run behaves
      as the run of the same manifest with such ceilings removed.
    - With three $0.5 steps under a $0.8 ceiling the run keeps exactly 2
      step results and fails with the ceiling error. *)
Theorem ceiling_stops_run agent_call (spec : WorkflowSpec) (fuel : nat)
    (step : WorkflowStep) (rest : list WorkflowStep) (s s1 : WF) (r : StepResult)
    (total_cost : Q) (total_duration : Z)
    (Hstep : execute_step agent_call spec fuel step s = (s1, inr r)) :
  ((exists m, spec_max_total_cost_usd spec = Some m /\ ~ m == 0 /\
              m < total_cost + sr_cost_usd r) \/
   (exists d, spec_max_total_duration_seconds spec = Some d /\ d <> 0%Z /\
              (d * 1000 < total_duration + sr_duration_ms r)%Z) ->
   exists l,
     run_loop agent_call spec fuel (step :: rest) s total_cost total_duration =
       (mkWF (wf_steps s ++ l ++ [Entry r])
             (dict_set ("steps." ++ s_name step)%string (result_value r) (wf_context s1))
             (wf_calls s1),
        total_cost + sr_cost_usd r, (total_duration + sr_duration_ms r)%Z,
        inr (Some ceiling_error))) /\
  (~ ((exists m, spec_max_total_cost_usd spec = Some m /\ ~ m == 0 /\
                 m < total_cost + sr_cost_usd r) \/
      (exists d, spec_max_total_duration_seconds spec = Some d /\ d <> 0%Z /\
                 (d * 1000 < total_duration + sr_duration_ms r)%Z)) ->
   let s2 := mkWF (wf_steps s1 ++ [Entry r])
               (dict_set ("steps." ++ s_name step)%string (result_value r) (wf_context s1))
               (wf_calls s1) in
   run_loop agent_call spec fuel (step :: rest) s total_cost total_duration =
     if negb (sr_success r) && negb (sr_skipped r)
        && match s_on_failure step with STOP => true | _ => false end
     then (s2, total_cost + sr_cost_usd r, (total_duration + sr_duration_ms r)%Z,
           inr (Some ("스텝 '" ++ s_name step ++ "' 실패로 워크플로우 중단")%string))
     else run_loop agent_call spec fuel rest s2 (total_cost + sr_cost_usd r)
            (total_duration + sr_duration_ms r)%Z) /\
  (forall fuel' wf_name initial_context elapsed_ms,
     run agent_call spec fuel' wf_name initial_context elapsed_ms =
     run agent_call (without_unset_ceilings spec) fuel' wf_name initial_context elapsed_ms) /\
  (exists wr, run ok_call (three_steps_spec (Some (4#5))) 10 "wf" [] 0 = inr wr /\
              List.length (wr_steps wr) = 2%nat /\ wr_success wr = false /\
              wr_error wr = Some ceiling_error).
Proof.
  split; [|split; [|split]].
  - intros Hlim.
    destruct (extends_execute_step agent_call spec fuel step s s1 (inr r) Hstep) as [l Hl].
    exists l; simpl; rewrite Hstep.
    apply check_limits_true in Hlim; rewrite Hlim.
    rewrite app_assoc, <- Hl; reflexivity.
  - intros Hlim s2; simpl; rewrite Hstep.
    destruct (check_limits spec (total_cost + sr_cost_usd r)
                (total_duration + sr_duration_ms r)) eqn:C.
    + apply check_limits_true in C; contradiction.
    + reflexivity.
  - intros fuel' wf_name initial_context elapsed_ms; unfold run.
    rewrite run_loop_without_unset; reflexivity.
  - eexists; split; [vm_compute; reflexivity|].
    split; [reflexivity|split; reflexivity].
Qed.

Definition ceiling_witness_step : WorkflowStep := agent_step "s1" "agent-a".

Definition ceiling_witness_result : StepResult :=
  mkStepResult "s1" (Some "agent-a") true (Some "OK") None (1#2) 100 false 0.

Lemma ceiling_stops_run_witness :
  execute_step ok_call (three_steps_spec (Some (1#4))) 10 ceiling_witness_step
    (mkWF [] [] 0) = (mkWF [] [] 1, inr ceiling_witness_result) /\
  ((exists m, spec_max_total_cost_usd (three_steps_spec (Some (1#4))) = Some m /\
              ~ m == 0 /\ m < 0 + sr_cost_usd ceiling_witness_result) \/
   (exists d, spec_max_total_duration_seconds (three_steps_spec (Some (1#4))) = Some d /\
              d <> 0%Z /\ (d * 1000 < 0 + sr_duration_ms ceiling_witness_result)%Z)) /\
  (exists l,
     run_loop ok_call (three_steps_spec (Some (1#4))) 10
       [ceiling_witness_step; agent_step "s2" "agent-a"] (mkWF [] [] 0) 0 0 =
       (mkWF ([] ++ l ++ [Entry ceiling_witness_result])
             (dict_set "steps.s1" (result_value ceiling_witness_result) [])
             1,
        0 + (1#2), (0 + 100)%Z, inr (Some ceiling_error))).
Proof.
  assert (Hstep : execute_step ok_call (three_steps_spec (Some (1#4))) 10 ceiling_witness_step
                    (mkWF [] [] 0) = (mkWF [] [] 1, inr ceiling_witness_result))
    by (vm_compute; reflexivity).
  assert (Hlim : (exists m, spec_max_total_cost_usd (three_steps_spec (Some (1#4))) = Some m /\
                            ~ m == 0 /\ m < 0 + sr_cost_usd ceiling_witness_result) \/
                 (exists d, spec_max_total_duration_seconds (three_steps_spec (Some (1#4)))
                              = Some d /\
                            d <> 0%Z /\ (d * 1000 < 0 + sr_duration_ms ceiling_witness_result)%Z)).
  { left; exists (1#4); split; [reflexivity|split].
    - intros E; vm_compute in E; discriminate E.
    - vm_compute; reflexivity. }
  split; [exact Hstep|split; [exact Hlim|]].
  exact (proj1 (ceiling_stops_run ok_call (three_steps_spec (Some (1#4))) 10
                  ceiling_witness_step [agent_step "s2" "agent-a"] (mkWF [] [] 0)
                  (mkWF [] [] 1) ceiling_witness_result 0 0 Hstep) Hlim).
Defined.

(** C7 counterexample: a declared cost ceiling of $0 is not enforced
    ([max_total_cost_usd and ...] is false for 0.0): the three $0.5 steps
    all run and the workflow succeeds with a total cost of $1.5. *)
Lemma zero_cost_ceiling_not_enforced :
  exists wr, run ok_call (three_steps_spec (Some 0)) 10 "wf" [] 0 = inr wr /\
             List.length (wr_steps wr) = 3%nat /\ wr_success wr = true /\
             wr_error wr = None /\ wr_total_cost_usd wr == 3#2.
Proof.
  eexists; split; [vm_compute; reflexivity|].
  split; [reflexivity|split; [reflexivity|split; [reflexivity|]]].
  vm_compute; reflexivity.
Qed.

(** ** Workflow totals *)

Definition sum_duration (rs : list StepResult) (acc : Z) : Z :=
  fold_left (fun a r => (a + sr_duration_ms r)%Z) rs acc.

(** The top-level steps [steps] executed one after the other by the loop of
    [WorkflowEngine.run], from the state [s] to the state [s']: [(sub, r)]
    records a step whose execution, from the state the loop was then in,
    appended the entries [sub] to the step list (the sub-results of a
    parallel group) and returned [r]; the loop then appended [r] and stored
    it in the context before the next step. *)
Inductive loop_trace agent_call (spec : WorkflowSpec) (fuel : nat)
  : list WorkflowStep -> WF -> list (list StepEntry * StepResult) -> WF -> Prop :=
| trace_nil (s : WF) : loop_trace agent_call spec fuel [] s [] s
| trace_cons (step : WorkflowStep) (rest : list WorkflowStep) (s s1 s' : WF)
    (sub : list StepEntry) (r : StepResult) tr :
    execute_step agent_call spec fuel step s = (s1, inr r) ->
    wf_steps s1 = wf_steps s ++ sub ->
    loop_trace agent_call spec fuel rest
      (mkWF (wf_steps s1 ++ [Entry r])
         (dict_set ("steps." ++ s_name step)%string (result_value r) (wf_context s1))
         (wf_calls s1)) tr s' ->
    loop_trace agent_call spec fuel (step :: rest) s ((sub, r) :: tr) s'.

(** The entries a traced step leaves in the step list: its sub-results,
    then its own result. *)
Definition trace_entries (tr : list (list StepEntry * StepResult)) : list StepEntry :=
  List.concat (map (fun '(sub, r) => sub ++ [Entry r]) tr).

Lemma loop_trace_steps agent_call spec fuel steps s tr s' :
  loop_trace agent_call spec fuel steps s tr s' ->
  wf_steps s' = wf_steps s ++ trace_entries tr.
Proof.
  induction 1 as [s|step rest s s1 s' sub r tr Hx Hs Ht IH]; simpl.
  - rewrite app_nil_r; reflexivity.
  - rewrite IH; unfold trace_entries; simpl; rewrite Hs, <- !app_assoc; reflexivity.
Qed.

(** Every run of the loop is traced: the steps that returned are a prefix
    of [steps], the totals add up their results, and the loop ends in the
    traced state, or in the state where the next step raised. *)
Lemma run_loop_trace agent_call (spec : WorkflowSpec) (fuel : nat)
    (steps : list WorkflowStep) :
  forall s total_cost total_duration,
  let '(sf, total_cost', total_duration', o) :=
    run_loop agent_call spec fuel steps s total_cost total_duration in
  exists tr sm,
    loop_trace agent_call spec fuel (firstn (List.length tr) steps) s tr sm /\
    total_cost' = sum_cost (map snd tr) total_cost /\
    total_duration' = sum_duration (map snd tr) total_duration /\
    match o with
    | inr _ => sf = sm
    | inl e => exists st, nth_error steps (List.length tr) = Some st /\
                          execute_step agent_call spec fuel st sm = (sf, inl e)
    end.
Proof.
  induction steps as [|step rest IH]; intros s tc td; simpl.
  - exists [], s; repeat split; constructor.
  - destruct (execute_step agent_call spec fuel step s) as [s1 [e|r]] eqn:E.
    + exists [], s; repeat split; [constructor|].
      exists step; split; [reflexivity|exact E].
    + destruct (extends_execute_step agent_call spec fuel step s s1 (inr r) E) as [l Hl].
      assert (H1 : loop_trace agent_call spec fuel [step] s [(l, r)]
                     (mkWF (wf_steps s1 ++ [Entry r])
                        (dict_set ("steps." ++ s_name step)%string (result_value r)
                           (wf_context s1)) (wf_calls s1)))
        by (econstructor; [exact E|exact Hl|constructor]).
      destruct (check_limits spec (tc + sr_cost_usd r) (td + sr_duration_ms r)).
      { exists [(l, r)]; eexists; split; [exact H1|repeat split]. }
      destruct (negb (sr_success r) && negb (sr_skipped r)
                && match s_on_failure step with STOP => true | _ => false end).
      { exists [(l, r)]; eexists; split; [exact H1|repeat split]. }
      match goal with
      | |- context [run_loop agent_call spec fuel rest ?s2 ?c ?d] =>
          specialize (IH s2 c d);
          destruct (run_loop agent_call spec fuel rest s2 c d) as [[[s' c'] d'] o]
      end.
      destruct IH as (tr & sm & Ht & Hc & Hd & Ho).
      exists ((l, r) :: tr), sm; split; [|split; [exact Hc|split; [exact Hd|exact Ho]]].
      simpl; econstructor; [exact E|exact Hl|exact Ht].
Qed.

Lemma execute_step_parallel agent_call (spec : WorkflowSpec) (fuel : nat)
    n a p i f rc (sub : WorkflowStep) (subs : list WorkflowStep) c t e :
  execute_step agent_call spec (S fuel) (mkStep n PARALLEL a p i f rc (Some (sub :: subs)) c t e) =
  bind (gather (execute_step agent_call spec fuel) (sub :: subs))
       (aggregate_parallel (mkStep n PARALLEL a p i f rc (Some (sub :: subs)) c t e)).
Proof. reflexivity. Qed.

(** C1 (amended).
    - A run that returns a [WorkflowResult] reports as total duration the
      wall-clock time of the run, whatever the steps report.
    - Its step list is made of the entries of the top-level steps that
      ran, in order (the loop's trace [tr], each step executed from the
      state the run was in): for each, the sub-results it appended (those
      of a parallel group), then its own result; followed, when a step
      raised an [Exception] that ended the run, by what that step appended
      before raising.
    - Its total cost is the sum of the costs of the top-level results only,
      so a sub-result is counted only through its group's result.
    - The result of a parallel group is returned after the gather: the
      group appends its sub-results to the step list, and has as cost
      their sum and as duration their max. *)
Theorem workflow_totals agent_call (spec : WorkflowSpec) (fuel : nat) (wf_name : string)
    (initial_context : list (string * Value)) (elapsed_ms : Z) :
  (match run agent_call spec fuel wf_name initial_context elapsed_ms with
   | inr wr =>
       wr_total_duration_ms wr = elapsed_ms /\
       exists tr sm extra,
         loop_trace agent_call spec fuel (firstn (List.length tr) (spec_steps spec))
           (mkWF [] (dict_merge (spec_context spec) initial_context) 0) tr sm /\
         wr_total_cost_usd wr = sum_cost (map snd tr) 0 /\
         wr_steps wr = trace_entries tr ++ extra /\
         (extra = [] \/
          exists st e s_e,
            nth_error (spec_steps spec) (List.length tr) = Some st /\
            execute_step agent_call spec fuel st sm = (s_e, inl e) /\
            is_Exception e = true /\
            wf_steps s_e = wf_steps sm ++ extra /\
            wr_error wr = Some (exc_str e))
   | inl _ => True
   end) /\
  (forall fuel' n a p i f rc sub subs c t e s,
     match execute_step agent_call spec (S fuel')
             (mkStep n PARALLEL a p i f rc (Some (sub :: subs)) c t e) s with
     | (s', inr r) =>
         exists s_mid items,
           gather (execute_step agent_call spec fuel') (sub :: subs) s = (s_mid, inr items) /\
           wf_steps s' = wf_steps s_mid ++ map Entry (results_of items) /\
           sr_cost_usd r = sum_cost (results_of items) 0 /\
           sr_duration_ms r = max_duration (results_of items) 0
     | (_, inl _) => True
     end).
Proof.
  split.
  - unfold run.
    pose proof (run_loop_trace agent_call spec fuel (spec_steps spec)
                  (mkWF [] (dict_merge (spec_context spec) initial_context) 0) 0 0) as H.
    destruct (run_loop agent_call spec fuel (spec_steps spec)
                (mkWF [] (dict_merge (spec_context spec) initial_context) 0) 0 0)
      as [[[s' c'] d'] [e|o]].
    + destruct (is_Exception e) eqn:Ee; [|exact I].
      split; [reflexivity|]; destruct H as (tr & sm & Ht & Hc & _ & st & Hst & Hx).
      pose proof (loop_trace_steps _ _ _ _ _ _ _ Ht) as Hsm; simpl in Hsm.
      destruct (extends_execute_step agent_call spec fuel st sm s' (inl e) Hx) as [l Hl].
      exists tr, sm, l; split; [exact Ht|split; [exact Hc|split]].
      * simpl; rewrite Hl, Hsm; reflexivity.
      * right; exists st, e, s'; auto.
    + split; [reflexivity|]; destruct H as (tr & sm & Ht & Hc & _ & ->).
      pose proof (loop_trace_steps _ _ _ _ _ _ _ Ht) as Hsm; simpl in Hsm.
      exists tr, sm, []; split; [exact Ht|split; [exact Hc|split]].
      * simpl; rewrite Hsm, app_nil_r; reflexivity.
      * left; reflexivity.
  - intros fuel' n a p i f rc sub subs c t e s.
    rewrite execute_step_parallel; unfold bind at 1.
    destruct (gather (execute_step agent_call spec fuel') (sub :: subs) s)
      as [s_mid [x|items]] eqn:G; [exact I|].
    destruct (aggregate_parallel (mkStep n PARALLEL a p i f rc (Some (sub :: subs)) c t e)
                items s_mid) as [s' [x|r]] eqn:A; [exact I|].
    exists s_mid, items; split; [reflexivity|].
    unfold aggregate_parallel, bind in A.
    destruct (aggregate_loop items 0 0 true [] s_mid) as [s2 [x|acc]] eqn:L;
      [discriminate A|].
    pose proof (aggregate_loop_exceptions items _ _ _ _ _ _ _ L) as Hexc.
    rewrite (aggregate_loop_eq items Hexc) in L.
    injection L as <- <-; injection A as <- <-; split; [reflexivity|split; reflexivity].
Qed.

(** A parallel group of two agent steps. *)
Definition parallel_spec : WorkflowSpec :=
  mkSpec [par_step_of [agent_step "a1" "agent-a"; agent_step "a2" "agent-b"]] None None [].

Definition entry_cost (e : StepEntry) : Q :=
  match e with Entry r => sr_cost_usd r | NonResult _ => 0 end.

Definition entry_duration (e : StepEntry) : Z :=
  match e with Entry r => sr_duration_ms r | NonResult _ => 0 end.

(** C1 counterexample: a run made of one parallel group of two steps of
    $0.5 and 100 ms each, taking 250 ms of wall-clock time.  Its step list
    holds the two sub-results and the group's result ($1, 100 ms): the
    total cost ($1) is not the sum over the step list ($2), and the total
    duration (250 ms) is neither the sum (300 ms) nor the group's
    duration (100 ms). *)
Lemma parallel_run_totals_differ :
  exists wr,
    run ok_call parallel_spec 10 "wf" [] 250 = inr wr /\
    map entry_name (wr_steps wr) = ["a1"; "a2"; "par"] /\
    map entry_duration (wr_steps wr) = [100; 100; 100]%Z /\
    wr_total_cost_usd wr == 1 /\
    fold_left (fun a e => a + entry_cost e) (wr_steps wr) 0 == 2 /\
    wr_total_duration_ms wr = 250%Z.
Proof.
  eexists; split; [vm_compute; reflexivity|].
  repeat split; vm_compute; reflexivity.
Qed.

(** * Further operations of the same modules *)

(** ** lifecycle/manager.py : get_events, get_summary, graceful_shutdown *)

(** Python's [l[start:]] for an int [start] (negative counts from the end,
    both clamped to the list). *)
Definition py_slice_from {A} (start : Z) (l : list A) : list A :=
  let n := Z.of_nat (List.length l) in
  let s := if (start <? 0)%Z then Z.max 0 (n + start) else Z.min start n in
  skipn (Z.to_nat s) l.

(** [LifecycleManager.get_events(agent_name, limit)] (the events before
    [to_dict]). *)
Definition get_events (m : LifecycleManager) (agent_name : option string) (limit : Z)
  : list LifecycleEvent :=
  let events := lm_events m in
  let events :=
    match agent_name with
    | Some n =>
        if str_truthy n then filter (fun e => String.eqb (ev_agent_name e) n) events
        else events
    | None => events
    end in
  py_slice_from (- limit) events.

(** [status.value] *)
Definition status_value (s : AgentStatus) : string :=
  match s with
  | REGISTERED => "REGISTERED" | INITIALIZING => "INITIALIZING"
  | READY => "READY" | EXECUTING => "EXECUTING" | ERROR => "ERROR"
  | DESTROYING => "DESTROYING" | DESTROYED => "DESTROYED" | LAZY => "LAZY"
  end.

Record LifecycleSummary := mkSummary {
  su_total_agents : Z;
  su_status_counts : list (string * Z);
  su_total_events : Z;
  su_total_callbacks : Z
}.

(** The [status_counts] loop of [get_summary]. *)
Definition count_statuses (agents : list (string * AgentInstance)) : list (string * Z) :=
  fold_left (fun counts '(_, a) =>
               let status := status_value (a_status a) in
               dict_set status
                 (match dict_get status counts with Some n => n | None => 0 end + 1)%Z
                 counts)
    agents [].

(** [LifecycleManager.get_summary(agents)] *)
Definition get_summary (m : LifecycleManager) (agents : list (string * AgentInstance))
  : LifecycleSummary :=
  mkSummary (Z.of_nat (List.length agents)) (count_statuses agents)
    (Z.of_nat (List.length (lm_events m))) (Z.of_nat (List.length (lm_callbacks m))).

Section GracefulShutdown.

(** [await agent.runtime.shutdown()] of the runtime bound to an agent:
    [Some e] when it raises [e]. *)
Variable runtime_shutdown_lm : RuntimeId -> option exc.

(** The status of an EXECUTING agent when [_wait_for_ready] returns: the
    wait only polls, so the status is whatever the running execution (or
    nothing, on timeout) has written meanwhile. *)
Variable status_after_wait : string -> AgentStatus.

(** [time.monotonic() - start_time] at the check of the [i]-th iteration
    of the loop, in seconds. *)
Variable elapsed_at : nat -> Q.

(** The [except Exception as e] handler of the loop body: move the agent
    to ERROR if allowed, else log. *)
Definition gs_on_error (m : LifecycleManager) (agent : AgentInstance) (e : exc)
  : LifecycleManager * AgentInstance * list LifecycleEvent :=
  match transition m agent ERROR (Some (exc_str e)) with
  | ((m1, a1), inr ev) => (m1, a1, [ev])
  | ((m1, a1), inl _) => (m1, a1, []) (* logger.error *)
  end.

(** The [try] block of the loop body for one agent: the manager, the
    agent after it, and the events appended to [events] (or a
    [BaseException] that escapes [graceful_shutdown]). *)
Definition gs_step (m : LifecycleManager) (name : string) (agent : AgentInstance)
  : LifecycleManager * AgentInstance * (exc + list LifecycleEvent) :=
  let agent :=
    if status_eqb (a_status agent) EXECUTING
    then set_status agent (status_after_wait name) else agent in
  match transition m agent DESTROYING None with
  | ((m1, a1), inl e) =>
      let '(m2, a2, evs) := gs_on_error m1 a1 e in (m2, a2, inr evs)
  | ((m1, a1), inr ev1) =>
      let raised :=
        match match a_runtime a1 with
              | Some rt => runtime_shutdown_lm rt
              | None => None
              end with
        | Some e => if is_Exception e then None (* logger.warning *) else Some e
        | None => None
        end in
      match raised with
      | Some e => (m1, a1, inl e)
      | None =>
          match transition m1 a1 DESTROYED None with
          | ((m2, a2), inr ev2) => (m2, a2, inr [ev1; ev2])
          | ((m2, a2), inl e) =>
              let '(m3, a3, evs) := gs_on_error m2 a2 e in (m3, a3, inr (ev1 :: evs))
          end
      end
  end.

(** The loop of [graceful_shutdown] over [agents.items()], from the
    [i]-th iteration: the manager, the agents dict after the loop (each
    agent object updated in place), and the returned events. *)
Fixpoint gs_loop (m : LifecycleManager) (agents : list (string * AgentInstance))
    (i : nat) (timeout_seconds : Q)
  : LifecycleManager * list (string * AgentInstance) * (exc + list LifecycleEvent) :=
  match agents with
  | [] => (m, [], inr [])
  | (name, agent) :: rest =>
      if negb (Qle_bool (elapsed_at i) timeout_seconds) then
        (m, agents, inr []) (* logger.warning; break *)
      else if status_eqb (a_status agent) LAZY || status_eqb (a_status agent) DESTROYED
              || status_eqb (a_status agent) DESTROYING then
        let '(m1, rest1, r) := gs_loop m rest (S i) timeout_seconds in
        (m1, (name, agent) :: rest1, r)
      else
        match gs_step m name agent with
        | (m1, a1, inl e) => (m1, (name, a1) :: rest, inl e)
        | (m1, a1, inr evs) =>
            let '(m2, rest2, r) := gs_loop m1 rest (S i) timeout_seconds in
            (m2, (name, a1) :: rest2,
             match r with inl e => inl e | inr evs' => inr (evs ++ evs') end)
        end
  end.

(** [LifecycleManager.graceful_shutdown(agents, timeout_seconds=...)] *)
Definition graceful_shutdown (m : LifecycleManager)
    (agents : list (string * AgentInstance)) (timeout_seconds : Q)
  : LifecycleManager * list (string * AgentInstance) * (exc + list LifecycleEvent) :=
  gs_loop m agents 0 timeout_seconds.

End GracefulShutdown.

(** ** Properties of the lifecycle manager *)

(** The callbacks raise nothing but [Exception]s, which [transition]
    catches (the case its model covers). *)
Definition callbacks_raise_exceptions (m : LifecycleManager) : Prop :=
  forall cb ev e, In cb (lm_callbacks m) -> cb ev = Some e -> is_Exception e = true.

Lemma transition_inr (m : LifecycleManager) (agent : AgentInstance) (new : AgentStatus)
    (err : option string) m' agent' ev :
  transition m agent new err = ((m', agent'), inr ev) ->
  valid_transition (a_status agent) new = true /\ agent' = set_status agent new /\
  ev = mkEvent (a_name agent) (a_status agent) new err /\
  lm_callbacks m' = lm_callbacks m /\ lm_max_events m' = lm_max_events m /\
  lm_events m' = (let evs := lm_events m ++ [ev] in
                  if Nat.ltb (lm_max_events m) (List.length evs)
                  then last_n (lm_max_events m) evs else evs).
Proof.
  unfold transition; destruct (valid_transition (a_status agent) new) eqn:V;
    simpl; intros H; [|discriminate H].
  injection H as <- <- <-; repeat split; reflexivity.
Qed.

Lemma transition_inl (m : LifecycleManager) (agent : AgentInstance) (new : AgentStatus)
    (err : option string) m' agent' e :
  transition m agent new err = ((m', agent'), inl e) ->
  valid_transition (a_status agent) new = false /\ m' = m /\ agent' = agent.
Proof.
  unfold transition; destruct (valid_transition (a_status agent) new) eqn:V;
    simpl; intros H; [discriminate H|].
  injection H as <- <- _; auto.
Qed.

Lemma transition_valid_eq (m : LifecycleManager) (agent : AgentInstance)
    (new : AgentStatus) (err : option string) :
  valid_transition (a_status agent) new = true ->
  exists m', transition m agent new err =
             ((m', set_status agent new), inr (mkEvent (a_name agent) (a_status agent) new err)).
Proof. intros V; unfold transition; rewrite V; simpl; eexists; reflexivity. Qed.

(** X1: a transition the table allows sets the status, and the event log
    stays within [max_events] (for a positive bound, as the manager's 500)
    while keeping the newest events, the new one last. *)
Theorem transition_event_log_bounded (m : LifecycleManager) (agent : AgentInstance)
    (new : AgentStatus) (err : option string) m' agent' ev
    (Hcb : callbacks_raise_exceptions m)
    (Hmax : (1 <= lm_max_events m)%nat)
    (H : transition m agent new err = ((m', agent'), inr ev)) :
  a_status agent' = new /\
  ev = mkEvent (a_name agent) (a_status agent) new err /\
  (List.length (lm_events m') <= lm_max_events m')%nat /\
  exists pre, lm_events m ++ [ev] = pre ++ lm_events m' /\
              exists older, lm_events m' = older ++ [ev].
Proof.
  apply transition_inr in H.
  destruct H as (_ & -> & Hev & _ & -> & ->); split; [reflexivity|split; [exact Hev|]].
  cbv zeta.
  set (evs := lm_events m ++ [ev]).
  destruct (Nat.ltb (lm_max_events m) (List.length evs)) eqn:L.
  - apply Nat.ltb_lt in L; unfold last_n; split.
    + rewrite length_skipn; lia.
    + exists (firstn (List.length evs - lm_max_events m) evs); split;
        [symmetry; apply firstn_skipn|].
      exists (firstn (lm_max_events m - 1)
                (skipn (List.length evs - lm_max_events m) (lm_events m))).
      unfold evs; rewrite skipn_app.
      assert (E : (List.length (lm_events m ++ [ev]) - lm_max_events m
                   - List.length (lm_events m) = 0)%nat)
        by (rewrite length_app; simpl; lia).
      rewrite E; simpl.
      rewrite firstn_all2; [reflexivity|].
      rewrite length_skipn, length_app in *; simpl in *; lia.
  - apply Nat.ltb_ge in L; split; [exact L|].
    exists []; split; [reflexivity|]; exists (lm_events m); reflexivity.
Qed.

Lemma transition_event_log_bounded_witness :
  callbacks_raise_exceptions empty_manager /\ (1 <= lm_max_events empty_manager)%nat /\
  transition empty_manager registered_agent INITIALIZING None =
    ((mkManager [] [mkEvent "agent-a" REGISTERED INITIALIZING None] 500,
      set_status registered_agent INITIALIZING),
     inr (mkEvent "agent-a" REGISTERED INITIALIZING None)) /\
  (a_status (set_status registered_agent INITIALIZING) = INITIALIZING /\
   mkEvent "agent-a" REGISTERED INITIALIZING None =
     mkEvent (a_name registered_agent) (a_status registered_agent) INITIALIZING None /\
   (List.length [mkEvent "agent-a" REGISTERED INITIALIZING None] <= 500)%nat /\
   exists pre, lm_events empty_manager ++ [mkEvent "agent-a" REGISTERED INITIALIZING None] =
               pre ++ [mkEvent "agent-a" REGISTERED INITIALIZING None] /\
     exists older, [mkEvent "agent-a" REGISTERED INITIALIZING None] =
                   older ++ [mkEvent "agent-a" REGISTERED INITIALIZING None]).
Proof.
  assert (Hcb : callbacks_raise_exceptions empty_manager) by (intros cb ev e [] _).
  assert (Hmax : (1 <= lm_max_events empty_manager)%nat) by (simpl; lia).
  assert (H : transition empty_manager registered_agent INITIALIZING None =
    ((mkManager [] [mkEvent "agent-a" REGISTERED INITIALIZING None] 500,
      set_status registered_agent INITIALIZING),
     inr (mkEvent "agent-a" REGISTERED INITIALIZING None))) by reflexivity.
  split; [exact Hcb|split; [exact Hmax|split; [exact H|]]].
  exact (transition_event_log_bounded empty_manager registered_agent INITIALIZING None
           _ _ _ Hcb Hmax H).
Defined.

(** An event records a transition the table allows. *)
Definition ev_valid (ev : LifecycleEvent) : bool :=
  valid_transition (ev_old_status ev) (ev_new_status ev).

(** The statuses [graceful_shutdown] skips. *)
Definition gs_skipped (a : AgentInstance) : bool :=
  status_eqb (a_status a) LAZY || status_eqb (a_status a) DESTROYED
  || status_eqb (a_status a) DESTROYING.

Lemma transition_inr_valid m agent new err m' agent' ev :
  transition m agent new err = ((m', agent'), inr ev) -> ev_valid ev = true.
Proof.
  intros H; apply transition_inr in H; destruct H as (V & _ & -> & _); exact V.
Qed.

Lemma gs_on_error_valid m agent e m' agent' evs :
  gs_on_error m agent e = (m', agent', evs) -> forallb ev_valid evs = true.
Proof.
  unfold gs_on_error.
  destruct (transition m agent ERROR (Some (exc_str e))) as [[m1 a1] [x|ev]] eqn:T;
    intros H; injection H as _ _ <-; [reflexivity|].
  simpl; rewrite (transition_inr_valid _ _ _ _ _ _ _ T); reflexivity.
Qed.

Lemma gs_step_valid rs sw m name agent m' agent' evs :
  gs_step rs sw m name agent = (m', agent', inr evs) -> forallb ev_valid evs = true.
Proof.
  unfold gs_step.
  set (a0 := if status_eqb (a_status agent) EXECUTING
             then set_status agent (sw name) else agent).
  destruct (transition m a0 DESTROYING None) as [[m1 a1] [e|ev1]] eqn:T1.
  - destruct (gs_on_error m1 a1 e) as [[m2 a2] evs2] eqn:G; intros H.
    injection H as _ _ <-; exact (gs_on_error_valid _ _ _ _ _ _ G).
  - pose proof (transition_inr_valid _ _ _ _ _ _ _ T1) as V1.
    cbv zeta.
    destruct (match match a_runtime a1 with Some rt => rs rt | None => None end with
              | Some e => if is_Exception e then None else Some e
              | None => None
              end) as [e|]; [intros H; discriminate H|].
    destruct (transition m1 a1 DESTROYED None) as [[m2 a2] [e|ev2]] eqn:T2.
    + destruct (gs_on_error m2 a2 e) as [[m3 a3] evs3] eqn:G; intros H.
      injection H as _ _ <-; simpl; rewrite V1; exact (gs_on_error_valid _ _ _ _ _ _ G).
    + intros H; injection H as _ _ <-; simpl.
      rewrite V1, (transition_inr_valid _ _ _ _ _ _ _ T2); reflexivity.
Qed.

(** X2: [graceful_shutdown] records only transitions the table allows:
    every event it returns has an allowed (old, new) pair. *)
Theorem graceful_shutdown_events_valid rs sw el (m : LifecycleManager)
    (agents : list (string * AgentInstance)) (timeout_seconds : Q) :
  let '(_, _, r) := graceful_shutdown rs sw el m agents timeout_seconds in
  match r with inr evs => forallb ev_valid evs = true | inl _ => True end.
Proof.
  unfold graceful_shutdown; generalize 0%nat as i; revert m.
  induction agents as [|[name agent] rest IH]; intros m i; simpl; [reflexivity|].
  destruct (negb (Qle_bool (el i) timeout_seconds)); [reflexivity|].
  destruct (status_eqb (a_status agent) LAZY || status_eqb (a_status agent) DESTROYED
            || status_eqb (a_status agent) DESTROYING).
  - specialize (IH m (S i)).
    destruct (gs_loop rs sw el m rest (S i) timeout_seconds) as [[m1 rest1] r]; exact IH.
  - destruct (gs_step rs sw m name agent) as [[m1 a1] [e|evs]] eqn:G; [exact I|].
    specialize (IH m1 (S i)).
    destruct (gs_loop rs sw el m1 rest (S i) timeout_seconds) as [[m2 rest2] [e|evs']];
      [exact I|].
    rewrite forallb_app, (gs_step_valid _ _ _ _ _ _ _ _ G); exact IH.
Qed.

(** X3: [graceful_shutdown] keeps the keys of the dict in their order and
    leaves every LAZY, DESTROYED or DESTROYING agent as it was, whether it
    completes, times out or is interrupted. *)
Theorem graceful_shutdown_keeps_inactive rs sw el (m : LifecycleManager)
    (agents : list (string * AgentInstance)) (timeout_seconds : Q) :
  let '(_, out, _) := graceful_shutdown rs sw el m agents timeout_seconds in
  Forall2 (fun p q => fst q = fst p /\ (gs_skipped (snd p) = true -> snd q = snd p))
    agents out.
Proof.
  unfold graceful_shutdown; generalize 0%nat as i; revert m.
  assert (Hrefl : forall l : list (string * AgentInstance),
             Forall2 (fun p q => fst q = fst p /\ (gs_skipped (snd p) = true -> snd q = snd p)) l l).
  { induction l; constructor; auto. }
  induction agents as [|[name agent] rest IH]; intros m i; simpl; [constructor|].
  destruct (negb (Qle_bool (el i) timeout_seconds)); [apply Hrefl|].
  destruct (status_eqb (a_status agent) LAZY || status_eqb (a_status agent) DESTROYED
            || status_eqb (a_status agent) DESTROYING) eqn:Sk.
  - specialize (IH m (S i)).
    destruct (gs_loop rs sw el m rest (S i) timeout_seconds) as [[m1 rest1] r].
    constructor; [split; reflexivity|exact IH].
  - destruct (gs_step rs sw m name agent) as [[m1 a1] [e|evs]] eqn:G.
    + constructor; [split; [reflexivity|]|apply Hrefl].
      intros Hs; unfold gs_skipped in Hs; simpl in Hs; rewrite Sk in Hs; discriminate Hs.
    + specialize (IH m1 (S i)).
      destruct (gs_loop rs sw el m1 rest (S i) timeout_seconds) as [[m2 rest2] r].
      constructor; [split; [reflexivity|]|exact IH].
      intros Hs; unfold gs_skipped in Hs; simpl in Hs; rewrite Sk in Hs; discriminate Hs.
Qed.

(** X4: when every agent is READY or ERROR, no iteration hits the timeout
    and neither a runtime shutdown nor a lifecycle callback raises more
    than an [Exception], every agent
    is DESTROYED and the returned events are, agent by agent in dict
    order, (status -> DESTROYING) then (DESTROYING -> DESTROYED). *)
Theorem graceful_shutdown_destroys_ready rs sw el (m : LifecycleManager)
    (agents : list (string * AgentInstance)) (timeout_seconds : Q)
    (Hst : Forall (fun p => a_status (snd p) = READY \/ a_status (snd p) = ERROR) agents)
    (Htime : forall i, el i <= timeout_seconds)
    (Hrs : forall rt e, rs rt = Some e -> is_Exception e = true)
    (Hcb : callbacks_raise_exceptions m) :
  let '(_, out, r) := graceful_shutdown rs sw el m agents timeout_seconds in
  map fst out = map fst agents /\
  Forall (fun p => a_status (snd p) = DESTROYED) out /\
  exists evs, r = inr evs /\
    map (fun ev => (ev_agent_name ev, ev_old_status ev, ev_new_status ev)) evs =
    flat_map (fun p => [(a_name (snd p), a_status (snd p), DESTROYING);
                        (a_name (snd p), DESTROYING, DESTROYED)]) agents.
Proof.
  clear Hcb.
  unfold graceful_shutdown; generalize 0%nat as i; revert m.
  induction agents as [|[name agent] rest IH]; intros m i; simpl.
  { split; [reflexivity|split; [constructor|exists []; split; reflexivity]]. }
  inversion Hst as [|? ? Ha Hrest]; subst; simpl in Ha.
  assert (Hq : Qle_bool (el i) timeout_seconds = true) by (apply Qle_bool_iff; apply Htime).
  rewrite Hq; simpl.
  assert (Hstep : exists m1, gs_step rs sw m name agent =
            (m1, set_status agent DESTROYED,
             inr [mkEvent (a_name agent) (a_status agent) DESTROYING None;
                  mkEvent (a_name agent) DESTROYING DESTROYED None])).
  { unfold gs_step.
    destruct Ha as [Ha|Ha]; rewrite Ha; simpl; unfold transition; rewrite Ha; simpl;
      (destruct (a_runtime agent) as [rt|];
       [destruct (rs rt) as [e|] eqn:R; simpl; [rewrite (Hrs rt e R)|]|]);
      simpl; eexists; reflexivity. }
  destruct Hstep as [m1 Hstep].
  assert (Hsk : (status_eqb (a_status agent) LAZY || status_eqb (a_status agent) DESTROYED
                 || status_eqb (a_status agent) DESTROYING) = false)
    by (destruct Ha as [Ha|Ha]; rewrite Ha; reflexivity).
  rewrite Hsk, Hstep.
  specialize (IH Hrest m1 (S i)).
  destruct (gs_loop rs sw el m1 rest (S i) timeout_seconds) as [[m2 rest2] r].
  destruct IH as (Hk & Hd & evs & -> & He).
  split; [simpl; f_equal; exact Hk|split; [constructor; [reflexivity|exact Hd]|]].
  eexists; split; [reflexivity|]; simpl; f_equal; f_equal; exact He.
Qed.

Definition ready_agent (name : string) : AgentInstance :=
  mkAgent name (Some "claude-code") READY 0 0 0.

Lemma graceful_shutdown_destroys_ready_witness :
  Forall (fun p => a_status (snd p) = READY \/ a_status (snd p) = ERROR)
    [("a", ready_agent "a"); ("b", set_status (ready_agent "b") ERROR)] /\
  (forall i : nat, (fun _ => 0) i <= 30) /\
  (forall (rt : RuntimeId) e, (fun _ : RuntimeId => Some (RuntimeError "down")) rt = Some e ->
                     is_Exception e = true) /\
  callbacks_raise_exceptions empty_manager /\
  let '(_, out, r) := graceful_shutdown (fun _ => Some (RuntimeError "down")) (fun _ => READY)
                        (fun _ => 0) empty_manager
                        [("a", ready_agent "a"); ("b", set_status (ready_agent "b") ERROR)] 30 in
  map fst out = map fst [("a", ready_agent "a"); ("b", set_status (ready_agent "b") ERROR)] /\
  Forall (fun p => a_status (snd p) = DESTROYED) out /\
  exists evs, r = inr evs /\
    map (fun ev => (ev_agent_name ev, ev_old_status ev, ev_new_status ev)) evs =
    flat_map (fun p => [(a_name (snd p), a_status (snd p), DESTROYING);
                        (a_name (snd p), DESTROYING, DESTROYED)])
      [("a", ready_agent "a"); ("b", set_status (ready_agent "b") ERROR)].
Proof.
  assert (H1 : Forall (fun p => a_status (snd p) = READY \/ a_status (snd p) = ERROR)
                 [("a", ready_agent "a"); ("b", set_status (ready_agent "b") ERROR)])
    by (repeat constructor; simpl; auto).
  assert (H2 : forall i : nat, (fun _ => 0) i <= 30) by (intros i; vm_compute; discriminate).
  assert (H3 : forall (rt : RuntimeId) e,
             (fun _ : RuntimeId => Some (RuntimeError "down")) rt = Some e ->
             is_Exception e = true)
    by (intros rt e H; injection H as <-; reflexivity).
  assert (H4 : callbacks_raise_exceptions empty_manager) by (intros cb ev e Hin; destruct Hin).
  split; [exact H1|split; [exact H2|split; [exact H3|split; [exact H4|]]]].
  exact (graceful_shutdown_destroys_ready _ (fun _ => READY) _ empty_manager _ 30 H1 H2 H3 H4).
Defined.

(** X5: an agent that may not move to DESTROYING is not destroyed (the
    callbacks raising at most [Exception]s): an INITIALIZING agent is moved to ERROR, its event carrying the failure
    message, and a REGISTERED agent is left as it is with no event. *)
Theorem graceful_shutdown_undestroyable rs sw el (m : LifecycleManager) (name : string)
    (agent : AgentInstance) (timeout_seconds : Q)
    (Htime : el 0%nat <= timeout_seconds) (Hcb : callbacks_raise_exceptions m) :
  let '(_, out, r) := graceful_shutdown rs sw el m [(name, agent)] timeout_seconds in
  (a_status agent = REGISTERED -> out = [(name, agent)] /\ r = inr []) /\
  (a_status agent = INITIALIZING ->
     exists msg, out = [(name, set_status agent ERROR)] /\
                 r = inr [mkEvent (a_name agent) INITIALIZING ERROR (Some msg)]).
Proof.
  clear Hcb.
  assert (Hq : Qle_bool (el 0%nat) timeout_seconds = true) by (apply Qle_bool_iff; exact Htime).
  destruct (graceful_shutdown rs sw el m [(name, agent)] timeout_seconds) as [[m' out] r] eqn:G.
  unfold graceful_shutdown in G; simpl in G; rewrite Hq in G; simpl in G.
  unfold gs_step, gs_on_error, transition in G.
  split; intros E; do 3 (rewrite ?E in G; simpl in G).
  all: injection G as _ <- <-.
  - split; reflexivity.
  - eexists; split; reflexivity.
Qed.

Lemma graceful_shutdown_undestroyable_witness :
  0 <= 30 /\ callbacks_raise_exceptions empty_manager /\
  let '(_, out, r) := graceful_shutdown (fun _ => None) (fun _ => READY) (fun _ => 0)
                        empty_manager [("a", set_status (ready_agent "a") INITIALIZING)] 30 in
  (a_status (set_status (ready_agent "a") INITIALIZING) = REGISTERED ->
     out = [("a", set_status (ready_agent "a") INITIALIZING)] /\ r = inr []) /\
  (a_status (set_status (ready_agent "a") INITIALIZING) = INITIALIZING ->
     exists msg, out = [("a", set_status (set_status (ready_agent "a") INITIALIZING) ERROR)] /\
                 r = inr [mkEvent (a_name (set_status (ready_agent "a") INITIALIZING))
                            INITIALIZING ERROR (Some msg)]).
Proof.
  assert (H : 0 <= 30) by (vm_compute; discriminate).
  assert (Hcb : callbacks_raise_exceptions empty_manager) by (intros cb ev e Hin; destruct Hin).
  split; [exact H|split; [exact Hcb|]].
  exact (graceful_shutdown_undestroyable (fun _ => None) (fun _ => READY) (fun _ => 0)
           empty_manager "a" (set_status (ready_agent "a") INITIALIZING) 30 H Hcb).
Defined.

(** ** Event history and summary *)

Lemma skipn_min_length {A} (k : nat) (l : list A) :
  skipn (Nat.min k (List.length l)) l = skipn k l.
Proof.
  destruct (Nat.le_ge_cases k (List.length l)) as [H|H].
  - rewrite Nat.min_l by exact H; reflexivity.
  - rewrite Nat.min_r by exact H; rewrite !skipn_all2 by lia; reflexivity.
Qed.

Lemma py_slice_from_nonneg {A} (start : Z) (l : list A) :
  (0 <= start)%Z -> py_slice_from start l = skipn (Z.to_nat start) l.
Proof.
  intros H; unfold py_slice_from.
  replace (start <? 0)%Z with false by (symmetry; apply Z.ltb_ge; lia).
  rewrite Z2Nat.inj_min, Nat2Z.id; apply skipn_min_length.
Qed.

Lemma py_slice_from_neg {A} (k : Z) (l : list A) :
  (0 < k)%Z ->
  (exists pre, l = pre ++ py_slice_from (- k) l) /\
  Z.of_nat (List.length (py_slice_from (- k) l)) = Z.min k (Z.of_nat (List.length l)).
Proof.
  intros H; unfold py_slice_from.
  replace (- k <? 0)%Z with true by (symmetry; apply Z.ltb_lt; lia).
  split.
  - eexists; symmetry; apply firstn_skipn.
  - rewrite length_skipn; lia.
Qed.

(** X6: [get_events] with a positive [limit] and a non-empty agent name
    returns the last [min limit n] of the [n] events of that agent, in
    order: a suffix of that agent's history. *)
Theorem get_events_last_of_agent (m : LifecycleManager) (name : string) (limit : Z)
    (Hname : name <> "") (Hlimit : (0 < limit)%Z) :
  let evs := filter (fun e => String.eqb (ev_agent_name e) name) (lm_events m) in
  let r := get_events m (Some name) limit in
  (exists pre, evs = pre ++ r) /\
  Z.of_nat (List.length r) = Z.min limit (Z.of_nat (List.length evs)) /\
  Forall (fun e => ev_agent_name e = name) r.
Proof.
  cbv zeta; unfold get_events.
  replace (str_truthy name) with true
    by (destruct name; [congruence|reflexivity]).
  destruct (py_slice_from_neg limit
              (filter (fun e => String.eqb (ev_agent_name e) name) (lm_events m)) Hlimit)
    as [[pre Hpre] Hlen].
  split; [exists pre; exact Hpre|split; [exact Hlen|]].
  apply Forall_forall; intros e He.
  assert (Hin : In e (filter (fun e => String.eqb (ev_agent_name e) name) (lm_events m)))
    by (rewrite Hpre; apply in_or_app; right; exact He).
  apply filter_In in Hin; apply String.eqb_eq; apply Hin.
Qed.

Definition event_of (name : string) : LifecycleEvent :=
  mkEvent name REGISTERED INITIALIZING None.

Definition manager_with_events : LifecycleManager :=
  mkManager [] [event_of "a"; event_of "b"; event_of "a"; event_of "a"] 500.

Lemma get_events_last_of_agent_witness :
  "a" <> "" /\ (0 < 2)%Z /\
  let evs := filter (fun e => String.eqb (ev_agent_name e) "a") (lm_events manager_with_events) in
  let r := get_events manager_with_events (Some "a") 2 in
  (exists pre, evs = pre ++ r) /\
  Z.of_nat (List.length r) = Z.min 2 (Z.of_nat (List.length evs)) /\
  Forall (fun e => ev_agent_name e = "a") r.
Proof.
  split; [discriminate|split; [reflexivity|]].
  apply (get_events_last_of_agent manager_with_events "a" 2); [discriminate|reflexivity].
Defined.

(** X7: a [limit] of 0 or less does not bound the result: Python's
    [events[-limit:]] is then [events[0:]] (all events) for 0, and drops
    the first [-limit] events for a negative limit. *)
Theorem get_events_nonpositive_limit (m : LifecycleManager) (name : string) (limit : Z)
    (Hlimit : (limit <= 0)%Z) :
  get_events m None limit = skipn (Z.to_nat (- limit)) (lm_events m) /\
  (name <> "" ->
   get_events m (Some name) limit =
   skipn (Z.to_nat (- limit))
     (filter (fun e => String.eqb (ev_agent_name e) name) (lm_events m))).
Proof.
  unfold get_events; split.
  - apply py_slice_from_nonneg; lia.
  - intros Hname.
    replace (str_truthy name) with true
      by (destruct name; [congruence|reflexivity]).
    apply py_slice_from_nonneg; lia.
Qed.

Lemma get_events_nonpositive_limit_witness :
  (0 <= 0)%Z /\
  get_events manager_with_events None 0 = skipn (Z.to_nat (- 0)) (lm_events manager_with_events) /\
  ("a" <> "" ->
   get_events manager_with_events (Some "a") 0 =
   skipn (Z.to_nat (- 0))
     (filter (fun e => String.eqb (ev_agent_name e) "a") (lm_events manager_with_events))).
Proof.
  split; [lia|].
  apply (get_events_nonpositive_limit manager_with_events "a" 0); lia.
Defined.

Lemma status_value_inj (s1 s2 : AgentStatus) :
  status_value s1 = status_value s2 -> s1 = s2.
Proof. destruct s1, s2; simpl; congruence. Qed.

(** The number of agents of a dict in status [s]. *)
Definition count_status (s : AgentStatus) (agents : list (string * AgentInstance)) : nat :=
  List.length (filter (fun p => status_eqb (a_status (snd p)) s) agents).

Definition get_or_0 (o : option Z) : Z :=
  match o with Some n => n | None => 0%Z end.

Definition dict_sum (d : list (string * Z)) : Z :=
  fold_right (fun kv acc => (snd kv + acc)%Z) 0%Z d.

Lemma dict_sum_set (k : string) (v : Z) (d : list (string * Z)) :
  dict_sum (dict_set k v d) = (dict_sum d - get_or_0 (dict_get k d) + v)%Z.
Proof.
  induction d as [|[k' v'] rest IH]; simpl.
  - unfold dict_sum; simpl; lia.
  - destruct (String.eqb k k'); unfold dict_sum in *; simpl in *; lia.
Qed.

Lemma count_statuses_aux_get (s : AgentStatus) (agents : list (string * AgentInstance))
    (acc : list (string * Z)) :
  let c := Z.of_nat (count_status s agents) in
  dict_get (status_value s)
    (fold_left (fun counts '(_, a) =>
               let status := status_value (a_status a) in
               dict_set status
                 (match dict_get status counts with Some n => n | None => 0 end + 1)%Z
                 counts) agents acc) =
  if (c =? 0)%Z then dict_get (status_value s) acc
  else Some (get_or_0 (dict_get (status_value s) acc) + c)%Z.
Proof.
  cbv zeta; unfold count_status.
  revert acc; induction agents as [|[nm a] rest IH]; intros acc; simpl.
  - reflexivity.
  - rewrite IH. destruct (status_eqb (a_status a) s) eqn:E.
    + apply status_eqb_eq in E; subst s; rewrite dict_get_set_same; simpl.
      set (c := List.length (filter (fun p => status_eqb (a_status (snd p)) (a_status a)) rest)).
      replace (Z.of_nat (S c) =? 0)%Z with false by (symmetry; apply Z.eqb_neq; lia).
      unfold get_or_0.
      destruct (Z.of_nat c =? 0)%Z eqn:Z0; [apply Z.eqb_eq in Z0|]; f_equal; lia.
    + rewrite dict_get_set_other.
      * reflexivity.
      * intros Hv; apply status_value_inj in Hv; subst s.
        destruct (a_status a); discriminate E.
Qed.

(** X8: in [get_summary], the count under [status.value] of a status is
    the number of agents in that status, and the status is absent from
    [status_counts] when no agent has it. *)
Theorem get_summary_status_count (m : LifecycleManager)
    (agents : list (string * AgentInstance)) (s : AgentStatus) :
  dict_get (status_value s) (su_status_counts (get_summary m agents)) =
  match count_status s agents with
  | O => None
  | n => Some (Z.of_nat n)
  end.
Proof.
  unfold get_summary, count_statuses; simpl.
  rewrite count_statuses_aux_get; simpl.
  destruct (count_status s agents); reflexivity.
Qed.

Lemma count_statuses_aux_sum (agents : list (string * AgentInstance)) (acc : list (string * Z)) :
  dict_sum
    (fold_left (fun counts '(_, a) =>
               let status := status_value (a_status a) in
               dict_set status
                 (match dict_get status counts with Some n => n | None => 0 end + 1)%Z
                 counts) agents acc) =
  (dict_sum acc + Z.of_nat (List.length agents))%Z.
Proof.
  revert acc; induction agents as [|[nm a] rest IH]; intros acc; simpl.
  - lia.
  - rewrite IH, dict_sum_set; unfold get_or_0; lia.
Qed.

(** X9: the counts of [status_counts] add up to [total_agents]. *)
Theorem get_summary_counts_sum (m : LifecycleManager) (agents : list (string * AgentInstance)) :
  dict_sum (su_status_counts (get_summary m agents)) = su_total_agents (get_summary m agents).
Proof.
  unfold get_summary, count_statuses; simpl.
  rewrite count_statuses_aux_sum; reflexivity.
Qed.

(** ** Aspect registration and matching *)

Lemma insert_by_order_perm (h : AspectHandler) (l : list AspectHandler) :
  Permutation (insert_by_order h l) (h :: l).
Proof.
  induction l as [|y rest IH]; simpl; [reflexivity|].
  destruct (h_order h <? h_order y)%Z; [reflexivity|].
  rewrite IH; apply perm_swap.
Qed.

Lemma sort_by_order_aux_perm (acc l : list AspectHandler) :
  Permutation (sort_by_order_aux acc l) (acc ++ l).
Proof.
  revert acc; induction l as [|x rest IH]; intros acc; simpl.
  - rewrite app_nil_r; reflexivity.
  - rewrite IH, insert_by_order_perm; simpl.
    apply Permutation_middle.
Qed.

(** X10: registering handlers one by one loses and duplicates none: the
    engine's handler list is a permutation of the registered handlers
    (so [handler_count] is the number of [register] calls). *)
Theorem register_all_permutation (rs : list AspectHandler) :
  Permutation (register_all rs) rs.
Proof.
  induction rs as [|h rs IH] using rev_ind; [reflexivity|].
  rewrite register_all_snoc; unfold register, sort_by_order.
  rewrite sort_by_order_aux_perm; simpl.
  apply Permutation_app_tail; exact IH.
Qed.

Lemma matches_agent_name (h : AspectHandler) (ev : string) (c1 c2 : AspectContext) :
  ac_agent_name c1 = ac_agent_name c2 -> matches h ev c1 = matches h ev c2.
Proof. intros E; unfold matches; rewrite E; reflexivity. Qed.

(** X11: [apply] never invokes a handler whose [events] list is non-empty
    and lacks the event type: every invoked handler is a registered one
    with an empty [events] list (a wildcard) or one that lists the event. *)
Theorem apply_invokes_only_event_matches (hs : list AspectHandler)
    (event_type : string) (ctx : AspectContext) :
  forall h, In h (snd (apply hs event_type ctx)) ->
  In h hs /\ (h_events h = [] \/ In event_type (h_events h)).
Proof.
  unfold apply; generalize (ac_set_event_type ctx event_type) as c.
  induction hs as [|h0 rest IH]; intros c h Hin; simpl in Hin; [contradiction|].
  destruct (matches h0 event_type c) eqn:M.
  - assert (Hh0 : h_events h0 = [] \/ In event_type (h_events h0)).
    { unfold matches in M.
      destruct (h_events h0) as [|x xs]; [left; reflexivity|right].
      destruct (str_in event_type (x :: xs)) eqn:Ein; [|discriminate M].
      unfold str_in in Ein; apply existsb_exists in Ein as [y [Hy Ey]].
      apply String.eqb_eq in Ey; subst y; exact Hy. }
    destruct (h_handle h0 event_type c) as [c1 [e|]].
    + destruct (is_Exception e).
      * specialize (IH c1 h).
        destruct (apply_loop rest event_type c1) as [[c2 o] t]; simpl in Hin.
        destruct Hin as [<-|Hin]; [split; [left; reflexivity|exact Hh0]|].
        destruct (IH Hin) as [Hr He]; split; [right; exact Hr|exact He].
      * simpl in Hin; destruct Hin as [<-|[]]; split; [left; reflexivity|exact Hh0].
    + specialize (IH c1 h).
      destruct (apply_loop rest event_type c1) as [[c2 o] t]; simpl in Hin.
      destruct Hin as [<-|Hin]; [split; [left; reflexivity|exact Hh0]|].
      destruct (IH Hin) as [Hr He]; split; [right; exact Hr|exact He].
  - destruct (IH c h Hin) as [Hr He]; split; [right; exact Hr|exact He].
Qed.

(** X12: when no handler raises a [BaseException] that is not an
    [Exception] and none changes [ctx.agent_name], [apply] returns
    normally and invokes exactly the handlers that match the event and
    the agent, each once, in list order. *)
Theorem apply_invokes_all_matches (hs : list AspectHandler)
    (event_type : string) (ctx : AspectContext)
    (Hexc : forall h ev c e, In h hs -> snd (h_handle h ev c) = Some e -> is_Exception e = true)
    (Hname : forall h ev c, In h hs -> ac_agent_name (fst (h_handle h ev c)) = ac_agent_name c) :
  let '(_, o, invoked) := apply hs event_type ctx in
  o = inr tt /\ invoked = filter (fun h => matches h event_type ctx) hs.
Proof.
  unfold apply.
  assert (Hc : ac_agent_name (ac_set_event_type ctx event_type) = ac_agent_name ctx)
    by reflexivity.
  revert Hc; generalize (ac_set_event_type ctx event_type) as c.
  induction hs as [|h0 rest IH]; intros c Hc; simpl; [split; reflexivity|].
  assert (IH' := IH (fun h ev c0 e Hh => Hexc h ev c0 e (or_intror Hh))
                    (fun h ev c0 Hh => Hname h ev c0 (or_intror Hh))).
  rewrite (matches_agent_name h0 event_type c ctx Hc).
  destruct (matches h0 event_type ctx); [|apply IH'; exact Hc].
  specialize (Hexc h0 event_type c); specialize (Hname h0 event_type c (or_introl eq_refl)).
  destruct (h_handle h0 event_type c) as [c1 [e|]]; simpl in Hname.
  - rewrite (Hexc e (or_introl eq_refl) eq_refl).
    specialize (IH' c1 (eq_trans Hname Hc)).
    destruct (apply_loop rest event_type c1) as [[c2 o] t].
    destruct IH' as [-> ->]; split; reflexivity.
  - specialize (IH' c1 (eq_trans Hname Hc)).
    destruct (apply_loop rest event_type c1) as [[c2 o] t].
    destruct IH' as [-> ->]; split; reflexivity.
Qed.

(** A handler on the given pointcut that raises a ValueError. *)
Definition failing_handler (name : string) (order : Z) (events targets : list string)
  : AspectHandler :=
  mkHandler name order events targets (fun _ c => (c, Some (ValueError "boom"))).

Definition pointcut_handlers : list AspectHandler :=
  [failing_handler "audit" 1 ["PreQuery"] ["agent-a"];
   failing_handler "other-agent" 2 ["PreQuery"] ["agent-b"];
   failing_handler "post-only" 3 ["PostQuery"] [];
   plain_handler "any" 4].

Lemma apply_invokes_all_matches_witness :
  (forall h ev c e, In h pointcut_handlers -> snd (h_handle h ev c) = Some e ->
                    is_Exception e = true) /\
  (forall h ev c, In h pointcut_handlers ->
                  ac_agent_name (fst (h_handle h ev c)) = ac_agent_name c) /\
  let '(_, o, invoked) := apply pointcut_handlers "PreQuery" sample_ctx in
  o = inr tt /\ invoked = filter (fun h => matches h "PreQuery" sample_ctx) pointcut_handlers.
Proof.
  assert (H1 : forall h ev c e, In h pointcut_handlers -> snd (h_handle h ev c) = Some e ->
                                is_Exception e = true).
  { intros h ev c e Hh He; simpl in Hh.
    destruct Hh as [<-|[<-|[<-|[<-|[]]]]]; simpl in He; injection He as <- || discriminate He;
      reflexivity. }
  assert (H2 : forall h ev c, In h pointcut_handlers ->
                              ac_agent_name (fst (h_handle h ev c)) = ac_agent_name c).
  { intros h ev c Hh; simpl in Hh.
    destruct Hh as [<-|[<-|[<-|[<-|[]]]]]; reflexivity. }
  split; [exact H1|split; [exact H2|]].
  exact (apply_invokes_all_matches pointcut_handlers "PreQuery" sample_ctx H1 H2).
Defined.

Lemma apply_invokes_only_event_matches_witness :
  In (failing_handler "audit" 1 ["PreQuery"] ["agent-a"])
     (snd (apply pointcut_handlers "PreQuery" sample_ctx)) /\
  In (failing_handler "audit" 1 ["PreQuery"] ["agent-a"]) pointcut_handlers /\
  (h_events (failing_handler "audit" 1 ["PreQuery"] ["agent-a"]) = [] \/
   In "PreQuery" (h_events (failing_handler "audit" 1 ["PreQuery"] ["agent-a"]))).
Proof.
  assert (H : In (failing_handler "audit" 1 ["PreQuery"] ["agent-a"])
                 (snd (apply pointcut_handlers "PreQuery" sample_ctx)))
    by (vm_compute; left; reflexivity).
  split; [exact H|].
  exact (apply_invokes_only_event_matches pointcut_handlers "PreQuery" sample_ctx _ H).
Defined.

(** ** Workflow engine: retries, step lookup, context and conditions *)

Lemma agent_attempts_all_fail agent_call (step : WorkflowStep) (agent prompt : string)
    (Hfail : forall n a p ctx, exists e, agent_call n a p ctx = inl e /\ is_Exception e = true) :
  forall (m : nat) (retries : Z) (last_error : option string) (s : WF),
  exists e,
    agent_call (wf_calls s + m)%nat agent prompt (wf_context s) = inl e /\
    agent_attempts agent_call step agent prompt (S m) retries last_error s =
    (mkWF (wf_steps s) (wf_context s) (wf_calls s + S m)%nat,
     inr (inr (retries + Z.of_nat (S m), Some (exc_str e))%Z)).
Proof.
  induction m as [|m IH]; intros retries last_error s.
  - destruct (Hfail (wf_calls s) agent prompt (wf_context s)) as [e [He Hx]].
    exists e; rewrite Nat.add_0_r; split; [exact He|].
    simpl; unfold bind, try_, call_agent, ret; rewrite He; simpl; rewrite Hx.
    apply (f_equal2 pair); [f_equal; lia|do 2 f_equal; lia].
  - destruct (Hfail (wf_calls s) agent prompt (wf_context s)) as [e0 [He0 Hx0]].
    destruct (IH (retries + 1)%Z (Some (exc_str e0))
                (mkWF (wf_steps s) (wf_context s) (S (wf_calls s)))) as [e [He Hrun]].
    cbn [wf_calls wf_context wf_steps] in He, Hrun.
    exists e; split; [replace (wf_calls s + S m)%nat with (S (wf_calls s) + m)%nat by lia; exact He|].
    change (agent_attempts agent_call step agent prompt (S (S m)) retries last_error s)
      with (bind (try_ (call_agent agent_call agent prompt))
              (fun r => match r with
                        | inr result =>
                            ret (inl (mkStepResult (s_name step) (Some agent) (x_success result)
                                        (Some (x_result result)) (x_error result)
                                        (x_cost_usd result) (x_duration_ms result) false retries))
                        | inl e =>
                            if is_Exception e then
                              agent_attempts agent_call step agent prompt (S m) (retries + 1)
                                (Some (exc_str e))
                            else raise e
                        end) s).
    unfold bind, try_, call_agent; rewrite He0; rewrite Hx0, Hrun.
    replace (retries + 1 + Z.of_nat (S m))%Z with (retries + Z.of_nat (S (S m)))%Z by lia.
    replace (S (wf_calls s) + S m)%nat with (wf_calls s + S (S m))%nat by lia; reflexivity.
Qed.

(** X13: an agent step whose every call raises an [Exception] makes exactly
    [retry_count + 1] calls (for [retry_count >= 0], whatever its
    [on_failure]), then returns a failed result with [retries =
    retry_count], the message of the last exception as [error], and
    [skipped] set exactly for the SKIP policy; the step list and the
    context are untouched. *)
Theorem agent_step_exhausts_retries agent_call (step : WorkflowStep) (s : WF)
    (agent prompt : string)
    (Hagent : s_agent step = Some agent) (Hagent_set : str_truthy agent = true)
    (Hprompt : resolve_prompt step (wf_context s) = inr (Some prompt))
    (Hprompt_set : str_truthy prompt = true)
    (Hretry : (0 <= s_retry_count step)%Z)
    (Hfail : forall n a p ctx, exists e, agent_call n a p ctx = inl e /\ is_Exception e = true) :
  let k := Z.to_nat (s_retry_count step) in
  exists e,
    agent_call (wf_calls s + k)%nat agent prompt (wf_context s) = inl e /\
    execute_agent_step agent_call step s =
    (mkWF (wf_steps s) (wf_context s) (wf_calls s + S k)%nat,
     inr (mkStepResult (s_name step) (Some agent) false None (Some (exc_str e)) 0 0
            (match s_on_failure step with SKIP => true | _ => false end)
            (s_retry_count step))).
Proof.
  cbv zeta.
  destruct (agent_attempts_all_fail agent_call step agent prompt Hfail
              (Z.to_nat (s_retry_count step)) 0 None s) as [e [He Hrun]].
  exists e; split; [exact He|].
  unfold execute_agent_step; rewrite Hagent, Hagent_set; simpl.
  unfold bind at 1, get_context; rewrite Hprompt, Hprompt_set; simpl.
  replace (Z.to_nat (s_retry_count step + 1)) with (S (Z.to_nat (s_retry_count step))) by lia.
  unfold bind; rewrite Hrun.
  replace (0 + Z.of_nat (S (Z.to_nat (s_retry_count step))) - 1)%Z
    with (s_retry_count step) by lia.
  destruct (s_on_failure step); reflexivity.
Qed.

(** A runtime whose every call raises RuntimeError. *)
Definition failing_call (_ : nat) (_ _ : string) (_ : list (string * Value))
  : exc + ExecuteResult :=
  inl (RuntimeError "runtime down").

Definition retry_step (policy : OnFailure) (retry_count : Z) : WorkflowStep :=
  mkStep "s1" AGENT (Some "agent-a") (Some "run") None policy retry_count
    None None None None.

Lemma failing_call_fails :
  forall n a p ctx, exists e, failing_call n a p ctx = inl e /\ is_Exception e = true.
Proof. intros; eexists; split; reflexivity. Qed.

Lemma agent_step_exhausts_retries_witness :
  let k := Z.to_nat (s_retry_count (retry_step SKIP 2)) in
  exists e,
    failing_call (wf_calls (mkWF [] [] 0) + k)%nat "agent-a" "run" [] = inl e /\
    execute_agent_step failing_call (retry_step SKIP 2) (mkWF [] [] 0) =
    (mkWF [] [] (0 + S k)%nat,
     inr (mkStepResult "s1" (Some "agent-a") false None (Some (exc_str e)) 0 0 true 2)).
Proof.
  exact (agent_step_exhausts_retries failing_call (retry_step SKIP 2) (mkWF [] [] 0)
           "agent-a" "run" eq_refl eq_refl eq_refl eq_refl
           ltac:(simpl; lia) failing_call_fails).
Defined.

(** X14: an agent step with a negative [retry_count] never calls the agent:
    the retry loop does not run, and the step fails with no error message
    and [retries = -1]. *)
Theorem agent_step_negative_retry_count agent_call (step : WorkflowStep) (s : WF)
    (agent prompt : string)
    (Hagent : s_agent step = Some agent) (Hagent_set : str_truthy agent = true)
    (Hprompt : resolve_prompt step (wf_context s) = inr (Some prompt))
    (Hprompt_set : str_truthy prompt = true)
    (Hretry : (s_retry_count step < 0)%Z) :
  execute_agent_step agent_call step s =
  (s, inr (mkStepResult (s_name step) (Some agent) false None None 0 0
             (match s_on_failure step with SKIP => true | _ => false end) (-1))).
Proof.
  unfold execute_agent_step; rewrite Hagent, Hagent_set; simpl.
  unfold bind at 1, get_context; rewrite Hprompt, Hprompt_set; simpl.
  replace (Z.to_nat (s_retry_count step + 1)) with O by lia.
  destruct s; destruct (s_on_failure step); reflexivity.
Qed.

Lemma agent_step_negative_retry_count_witness :
  execute_agent_step ok_call (retry_step STOP (-1)) (mkWF [] [] 0) =
  (mkWF [] [] 0, inr (mkStepResult "s1" (Some "agent-a") false None None 0 0 false (-1))).
Proof.
  exact (agent_step_negative_retry_count ok_call (retry_step STOP (-1)) (mkWF [] [] 0)
           "agent-a" "run" eq_refl eq_refl eq_refl eq_refl ltac:(simpl; lia)).
Defined.

Lemma find_in_step_name (name : string) :
  forall st found, find_in_step name st = Some found -> s_name found = name.
Proof.
  fix IH 1; intros st found.
  destruct st as [n ty ag pr inp onf rc sub cond it iff]; simpl.
  destruct (String.eqb n name) eqn:E.
  - intros H; injection H as <-; simpl; apply String.eqb_eq; exact E.
  - destruct sub as [l|]; [|discriminate].
    revert l; fix IHl 1; intros [|x rest]; [discriminate|].
    destruct (find_in_step name x) as [f|] eqn:Ex.
    + clear IHl; intros H; injection H as <-; exact (IH x f Ex).
    + exact (IHl rest).
Qed.

Lemma find_in_step_self (name : string) (st : WorkflowStep) :
  s_name st = name -> find_in_step name st = Some st.
Proof.
  intros <-; destruct st; simpl; rewrite String.eqb_refl; reflexivity.
Qed.

(** X15: [_find_step] only returns a step of the requested name, and it
    finds one whenever a top-level step has that name (possibly a nested
    step of that name inside an earlier parallel group). *)
Theorem find_step_sound_complete (name : string) (steps : list WorkflowStep) :
  (forall found, find_step name steps = Some found -> s_name found = name) /\
  (forall st, In st steps -> s_name st = name -> exists found, find_step name steps = Some found).
Proof.
  induction steps as [|st0 rest [IHs IHc]]; simpl.
  - split; [discriminate|contradiction].
  - split.
    + destruct (find_in_step name st0) as [f|] eqn:E.
      * intros found H; injection H as <-; exact (find_in_step_name name st0 f E).
      * exact IHs.
    + intros st [->|Hin] Hname.
      * rewrite (find_in_step_self name st Hname); eexists; reflexivity.
      * destruct (find_in_step name st0) as [f|]; [eexists; reflexivity|].
        exact (IHc st Hin Hname).
Qed.

(** X16: in [{**a, **b}] (the run's initial context: the manifest context
    overridden by [initial_context]) a key has its value in [b] if [b]
    has it, else its value in [a]. *)
Theorem dict_merge_lookup {V} (a b : list (string * V)) (k : string)
    (Hb : NoDup (map fst b)) :
  dict_get k (dict_merge a b) =
  match dict_get k b with Some v => Some v | None => dict_get k a end.
Proof.
  unfold dict_merge; revert a; induction b as [|[k' v'] rest IH]; intros a; simpl.
  - reflexivity.
  - inversion Hb as [|? ? Hnin Hnd]; subst.
    rewrite (IH Hnd).
    destruct (String.eqb k k') eqn:E.
    + apply String.eqb_eq in E; subst k'.
      assert (Hnone : dict_get k rest = None).
      { clear IH Hb Hnd; induction rest as [|[k2 v2] rest2 IH2]; simpl; [reflexivity|].
        destruct (String.eqb k k2) eqn:E2.
        - apply String.eqb_eq in E2; subst k2; exfalso; apply Hnin; left; reflexivity.
        - apply IH2; intros Hin; apply Hnin; right; exact Hin. }
      rewrite Hnone, dict_get_set_same; reflexivity.
    + destruct (dict_get k rest); [reflexivity|].
      apply dict_get_set_other; intros ->; rewrite String.eqb_refl in E; discriminate.
Qed.

Lemma dict_merge_lookup_witness :
  NoDup (map fst [("x", 2%Z); ("z", 3%Z)]) /\
  dict_get "x" (dict_merge [("x", 1%Z); ("y", 5%Z)] [("x", 2%Z); ("z", 3%Z)]) =
  match dict_get "x" [("x", 2%Z); ("z", 3%Z)] with
  | Some v => Some v | None => dict_get "x" [("x", 1%Z); ("y", 5%Z)] end.
Proof.
  assert (H : NoDup (map fst [("x", 2%Z); ("z", 3%Z)])).
  { simpl; constructor; [simpl; intros [H|[]]; discriminate H|].
    constructor; [intros []|constructor]. }
  split; [exact H|].
  exact (dict_merge_lookup [("x", 1%Z); ("y", 5%Z)] [("x", 2%Z); ("z", 3%Z)] "x" H).
Defined.

Definition has_no_dot (s : string) : bool :=
  forallb (fun c => negb (Ascii.eqb c "."%char)) (list_ascii_of_string s).

Lemma split_dot_aux_no_dot (s cur : string) :
  has_no_dot s = true -> split_dot_aux s cur = [(cur ++ s)%string].
Proof.
  revert cur; induction s as [|c rest IH]; intros cur H; simpl.
  - rewrite str_app_nil_r; reflexivity.
  - unfold has_no_dot in H; simpl in H; apply andb_prop in H as [Hc Hr].
    apply negb_true_iff in Hc; rewrite Hc.
    rewrite (IH _ Hr), <- str_app_assoc; reflexivity.
Qed.

(** X17: a condition without a dot is the truthiness of the context value
    under that key; a missing key (or a [None] value) is false. *)
Theorem evaluate_condition_flat_key (key : string) (context : list (string * Value))
    (Hkey : has_no_dot key = true) :
  evaluate_condition key context =
  match dict_get key context with Some v => truthy v | None => false end.
Proof.
  unfold evaluate_condition, split_dot; rewrite split_dot_aux_no_dot by exact Hkey.
  simpl; destruct (dict_get key context) as [[]|]; reflexivity.
Qed.

Lemma evaluate_condition_flat_key_witness :
  has_no_dot "approved" = true /\
  evaluate_condition "approved" [("approved", VNum 0)] =
  match dict_get "approved" [("approved", VNum 0)] with Some v => truthy v | None => false end.
Proof.
  split; [reflexivity|].
  exact (evaluate_condition_flat_key "approved" [("approved", VNum 0)] eq_refl).
Defined.

(** X18: a returned [WorkflowResult] reports [success] exactly when it has
    no [error]. *)
Theorem run_success_iff_no_error agent_call (spec : WorkflowSpec) (fuel : nat)
    (name : string) (init : list (string * Value)) (elapsed : Z) (wr : WorkflowResult)
    (Hrun : run agent_call spec fuel name init elapsed = inr wr) :
  wr_success wr = true <-> wr_error wr = None.
Proof.
  unfold run in Hrun.
  destruct (run_loop agent_call spec fuel (spec_steps spec)
              (mkWF [] (dict_merge (spec_context spec) init) 0) 0 0)
    as [[[s tc] td] [e|error]].
  - destruct (is_Exception e); [|discriminate].
    injection Hrun as <-; simpl; split; discriminate.
  - injection Hrun as <-; simpl; destruct error; split; congruence.
Qed.

Lemma run_success_iff_no_error_witness :
  let wr := match run ok_call condition_spec 10 "wf" [] 0 with
            | inr wr => wr
            | inl _ => mkWorkflowResult "" false [] 0 0 [] None
            end in
  run ok_call condition_spec 10 "wf" [] 0 = inr wr /\
  (wr_success wr = true <-> wr_error wr = None).
Proof.
  intros wr.
  assert (H : run ok_call condition_spec 10 "wf" [] 0 = inr wr) by (vm_compute; reflexivity).
  split; [exact H|].
  exact (run_success_iff_no_error ok_call condition_spec 10 "wf" [] 0 wr H).
Defined.

(** X19: when a top-level step with [on_failure: stop] fails (not skipped),
    the run loop ends there with an error, whatever steps follow: the
    later steps are never executed. *)
Theorem stop_policy_halts_run agent_call (spec : WorkflowSpec) (fuel : nat)
    (step : WorkflowStep) (rest : list WorkflowStep) (s s1 : WF) (r : StepResult)
    (total_cost : Q) (total_duration : Z)
    (Hstep : execute_step agent_call spec fuel step s = (s1, inr r))
    (Hfailed : sr_success r = false) (Hnot_skipped : sr_skipped r = false)
    (Hstop : s_on_failure step = STOP) :
  run_loop agent_call spec fuel (step :: rest) s total_cost total_duration =
  run_loop agent_call spec fuel [step] s total_cost total_duration /\
  exists s2 c d msg,
    run_loop agent_call spec fuel (step :: rest) s total_cost total_duration
    = (s2, c, d, inr (Some msg)).
Proof.
  simpl; rewrite Hstep, Hfailed, Hnot_skipped, Hstop; simpl.
  destruct (check_limits spec (total_cost + sr_cost_usd r) (total_duration + sr_duration_ms r));
    (split; [reflexivity|do 4 eexists; reflexivity]).
Qed.

Lemma stop_policy_halts_run_witness :
  execute_step failing_call (three_steps_spec None) 10 (retry_step STOP 0) (mkWF [] [] 0)
    = (mkWF [] [] 1, inr (mkStepResult "s1" (Some "agent-a") false None
                            (Some "runtime down") 0 0 false 0)) /\
  run_loop failing_call (three_steps_spec None) 10
    (retry_step STOP 0 :: spec_steps (three_steps_spec None)) (mkWF [] [] 0) 0 0 =
  run_loop failing_call (three_steps_spec None) 10 [retry_step STOP 0] (mkWF [] [] 0) 0 0 /\
  exists s2 c d msg,
    run_loop failing_call (three_steps_spec None) 10
      (retry_step STOP 0 :: spec_steps (three_steps_spec None)) (mkWF [] [] 0) 0 0
    = (s2, c, d, inr (Some msg)).
Proof.
  assert (H : execute_step failing_call (three_steps_spec None) 10 (retry_step STOP 0)
                (mkWF [] [] 0)
              = (mkWF [] [] 1, inr (mkStepResult "s1" (Some "agent-a") false None
                                      (Some "runtime down") 0 0 false 0)))
    by reflexivity.
  split; [exact H|].
  exact (stop_policy_halts_run failing_call (three_steps_spec None) 10 (retry_step STOP 0)
           (spec_steps (three_steps_spec None)) (mkWF [] [] 0) (mkWF [] [] 1)
           (mkStepResult "s1" (Some "agent-a") false None (Some "runtime down") 0 0 false 0)
           0 0 H eq_refl eq_refl eq_refl).
Defined.

(** ** Application context: execute and shutdown *)

Lemma write_status_get (c : Context) (n : string) (s : AgentStatus) (k : string) :
  dict_get k (ctx_agents (write_status c n s)) =
  if String.eqb k n then option_map (fun a => set_status a s) (dict_get n (ctx_agents c))
  else dict_get k (ctx_agents c).
Proof.
  unfold write_status.
  destruct (String.eqb k n) eqn:E.
  - apply String.eqb_eq in E; subst k.
    destruct (dict_get n (ctx_agents c)) as [a|] eqn:Eg; simpl; [apply dict_get_set_same|exact Eg].
  - apply String.eqb_neq in E.
    destruct (dict_get n (ctx_agents c)); simpl; [apply dict_get_set_other; exact E|reflexivity].
Qed.

Lemma write_status_tx_counter (c : Context) (n : string) (s : AgentStatus) :
  ctx_tx_counter (write_status c n s) = ctx_tx_counter c.
Proof. unfold write_status; destruct (dict_get n (ctx_agents c)); reflexivity. Qed.

Lemma write_status_started (c : Context) (n : string) (s : AgentStatus) :
  ctx_started (write_status c n s) = ctx_started c.
Proof. unfold write_status; destruct (dict_get n (ctx_agents c)); reflexivity. Qed.

Lemma add_counters_tx_counter (c : Context) (n : string) (r : AgentResult) :
  ctx_tx_counter (add_counters c n r) = ctx_tx_counter c.
Proof. unfold add_counters; destruct (dict_get n (ctx_agents c)); reflexivity. Qed.

Lemma resolve_agent_tx_counter (cf : AgentManifest -> option exc) (c c1 : Context)
    (name : string) r :
  resolve_agent cf c name = (c1, r) -> ctx_tx_counter c1 = ctx_tx_counter c.
Proof.
  unfold resolve_agent, get_agent.
  destruct (dict_get name (ctx_agents c)) as [a|]; [|intros H; injection H as <-; reflexivity].
  destruct (status_eqb (a_status a) LAZY); [|intros H; injection H as <-; reflexivity].
  destruct (dict_get name (ctx_manifests c)) as [m|]; destruct (ctx_has_factory c);
    try (intros H; injection H as <-; reflexivity).
  destruct (factory_create cf m); intros H; injection H as <-; reflexivity.
Qed.

(** X20: every execution that returns advances the context's transaction
    counter by exactly one and reports the new counter as its [tx_id], for
    the agent name it was called with, with [success] exactly when the
    result has no error, and the session and execution ids built from
    the two fresh uuids. *)
Theorem execute_tx_counter rex (cf : AgentManifest -> option exc) (c c' : Context)
    (name prompt su eu : string) (res : ExecuteResult)
    (Hexec : execute rex cf c name prompt su eu = (c', inr res)) :
  ctx_tx_counter c' = (ctx_tx_counter c + 1)%Z /\
  x_tx_id res = ctx_tx_counter c' /\
  x_agent res = name /\
  x_success res = match x_error res with None => true | Some _ => false end /\
  x_session_id res = ("sess_" ++ su)%string /\
  x_execution_id res = ("exec_" ++ eu)%string.
Proof.
  unfold execute in Hexec.
  destruct (resolve_agent cf c name) as [c1 [e|agent]] eqn:Hres; [discriminate|].
  apply resolve_agent_tx_counter in Hres.
  destruct (a_runtime agent) as [rt|]; [|discriminate].
  destruct (rex _ rt prompt) as [r|e]; [|discriminate].
  injection Hexec as <- <-; simpl.
  rewrite add_counters_tx_counter, !write_status_tx_counter; simpl.
  rewrite Hres; repeat split; reflexivity.
Qed.

Lemma execute_tx_counter_witness :
  execute (fun _ _ _ => RReturn (mkResult "ok" (1#2) 100 "m" None)) (fun _ => None)
    one_agent_ctx "a" "hi" "u1" "u2" =
  (fst (execute (fun _ _ _ => RReturn (mkResult "ok" (1#2) 100 "m" None)) (fun _ => None)
          one_agent_ctx "a" "hi" "u1" "u2"),
   inr (mkExecuteResult "exec_u2" "sess_u1" 1 "a" "ok" true None (1#2) 100 "m")) /\
  ctx_tx_counter (fst (execute (fun _ _ _ => RReturn (mkResult "ok" (1#2) 100 "m" None))
                         (fun _ => None) one_agent_ctx "a" "hi" "u1" "u2"))
  = (ctx_tx_counter one_agent_ctx + 1)%Z.
Proof.
  assert (H : execute (fun _ _ _ => RReturn (mkResult "ok" (1#2) 100 "m" None)) (fun _ => None)
                one_agent_ctx "a" "hi" "u1" "u2" =
              (fst (execute (fun _ _ _ => RReturn (mkResult "ok" (1#2) 100 "m" None))
                      (fun _ => None) one_agent_ctx "a" "hi" "u1" "u2"),
               inr (mkExecuteResult "exec_u2" "sess_u1" 1 "a" "ok" true None (1#2) 100 "m")))
    by reflexivity.
  split; [exact H|].
  exact (proj1 (execute_tx_counter _ _ _ _ _ _ _ _ _ H)).
Defined.

(** X21: executing a LAZY agent that has a manifest, when the context has a
    factory and the creation succeeds, replaces its handle by the freshly
    created instance: after a returned call the stored handle is that new
    instance, READY, with query count 1 and only this call's cost and
    duration (the LAZY handle's counters are dropped). *)
Theorem execute_lazy_replaces_handle rex (cf : AgentManifest -> option exc) (c : Context)
    (name prompt su eu : string) (a : AgentInstance) (m : AgentManifest) (r : AgentResult)
    (Ha : dict_get name (ctx_agents c) = Some a) (Hlazy : a_status a = LAZY)
    (Hm : dict_get name (ctx_manifests c) = Some m) (Hf : ctx_has_factory c = true)
    (Hcreate : cf m = None)
    (Hrun : forall cx, rex cx (m_runtime m) prompt = RReturn r) :
  exists c' res,
    execute rex cf c name prompt su eu = (c', inr res) /\
    dict_get name (ctx_agents c') =
    Some (mkAgent (m_name m) (Some (m_runtime m)) READY 1
            (0 + r_cost_usd r) (0 + r_duration_ms r)).
Proof.
  unfold execute, resolve_agent, get_agent.
  rewrite Ha, Hlazy; simpl; rewrite Hm, Hf; unfold factory_create; rewrite Hcreate; simpl.
  rewrite Hrun.
  do 2 eexists; split; [reflexivity|].
  unfold add_counters.
  rewrite !write_status_get, String.eqb_refl; simpl.
  rewrite dict_get_set_same; simpl.
  rewrite dict_get_set_same; reflexivity.
Qed.

(** A context whose agent [a] is declared lazy, with its manifest and a
    factory. *)
Definition lazy_ctx : Context :=
  mkCtx [("a", mkAgent "a" None LAZY 3 1 10)] [("a", mkManifest "a" "claude-code")]
    true 0 true [].

Lemma execute_lazy_replaces_handle_witness :
  exists c' res,
    execute (fun _ _ _ => RReturn (mkResult "ok" (1#2) 100 "m" None)) (fun _ => None)
      lazy_ctx "a" "hi" "u1" "u2" = (c', inr res) /\
    dict_get "a" (ctx_agents c') =
    Some (mkAgent "a" (Some "claude-code") READY 1 (0 + (1#2)) (0 + 100)).
Proof.
  exact (execute_lazy_replaces_handle (fun _ _ _ => RReturn (mkResult "ok" (1#2) 100 "m" None))
           (fun _ => None) lazy_ctx "a" "hi" "u1" "u2" (mkAgent "a" None LAZY 3 1 10)
           (mkManifest "a" "claude-code") (mkResult "ok" (1#2) 100 "m" None)
           eq_refl eq_refl eq_refl eq_refl eq_refl (fun _ => eq_refl)).
Defined.

(** The agents [shutdown] acts on: a bound runtime and a status other
    than LAZY. *)
Definition shutdown_target (a : AgentInstance) : bool :=
  match a_runtime a with
  | Some _ => negb (status_eqb (a_status a) LAZY)
  | None => false
  end.

(** How [shutdown] leaves the agent [a] stored under [k], the log of
    status writes having been [log0] when it started: its own runtime
    [rt] was shut down at a context [cx] in which [k] had just been set
    DESTROYING, and it ends DESTROYED if that call returned, DESTROYING
    if it raised (and was logged). *)
Definition shut_ok (rsd : Context -> RuntimeId -> option exc)
    (log0 : list (string * AgentStatus * AgentStatus)) (k : string)
    (a : AgentInstance) (st : AgentStatus) : Prop :=
  exists cx rt w s_prev,
    a_runtime a = Some rt /\
    dict_get k (ctx_agents cx) = Some (set_status a DESTROYING) /\
    ctx_status_writes cx = log0 ++ w ++ [(k, s_prev, DESTROYING)] /\
    match rsd cx rt with
    | None => st = DESTROYED
    | Some _ => st = DESTROYING
    end.

(** The context [c] after the loop has visited the names [done],
    compared with the context [c0] before it. *)
Definition shut_inv rsd (c0 : Context) (done : list string) (c : Context) : Prop :=
  (exists w, ctx_status_writes c = ctx_status_writes c0 ++ w) /\
  (forall k, dict_get k (ctx_agents c0) = None -> dict_get k (ctx_agents c) = None) /\
  (forall k a, dict_get k (ctx_agents c0) = Some a ->
     exists b, dict_get k (ctx_agents c) = Some b /\
       if shutdown_target a && existsb (String.eqb k) done
       then exists st, b = set_status a st /\ shut_ok rsd (ctx_status_writes c0) k a st
       else b = a).

Lemma set_status_twice (a : AgentInstance) (s1 s2 : AgentStatus) :
  set_status (set_status a s1) s2 = set_status a s2.
Proof. destruct a; reflexivity. Qed.

Lemma existsb_snoc_eqb (k n : string) (done : list string) :
  existsb (String.eqb k) (done ++ [n]) = existsb (String.eqb k) done || String.eqb k n.
Proof. rewrite existsb_app; simpl; rewrite orb_false_r; reflexivity. Qed.

Lemma write_status_writes (c : Context) (n : string) (s : AgentStatus) :
  ctx_status_writes (write_status c n s) =
  match dict_get n (ctx_agents c) with
  | Some a => ctx_status_writes c ++ [(n, a_status a, s)]
  | None => ctx_status_writes c
  end.
Proof. unfold write_status; destruct (dict_get n (ctx_agents c)); reflexivity. Qed.

(** Visiting [n] without writing keeps the invariant when [n] is not a
    shutdown target. *)
Lemma shut_inv_skip rsd c0 done c (n : string) :
  shut_inv rsd c0 done c ->
  (forall a, dict_get n (ctx_agents c0) = Some a -> shutdown_target a = false) ->
  shut_inv rsd c0 (done ++ [n]) c.
Proof.
  intros [Hlog [Hnone Hsome]] Hn; split; [exact Hlog|split; [exact Hnone|]].
  intros k a Hk; destruct (Hsome k a Hk) as [b [Hb Hrel]]; exists b; split; [exact Hb|].
  rewrite existsb_snoc_eqb.
  destruct (String.eqb k n) eqn:E.
  - apply String.eqb_eq in E; subst k; rewrite (Hn a Hk) in *; exact Hrel.
  - rewrite orb_false_r; exact Hrel.
Qed.

(** Writing the status [st] to the target [n] keeps the invariant. *)
Lemma shut_inv_write rsd c0 done (c c' : Context) (n : string) (b : AgentInstance)
    (st : AgentStatus) :
  shut_inv rsd c0 done c ->
  dict_get n (ctx_agents c) = Some b ->
  shutdown_target b = true ->
  (forall a, a_runtime a = a_runtime b ->
             set_status a DESTROYING = set_status b DESTROYING ->
             shut_ok rsd (ctx_status_writes c0) n a st) ->
  (exists w, ctx_status_writes c' = ctx_status_writes c ++ w) ->
  (forall k, dict_get k (ctx_agents c') =
             if String.eqb k n then Some (set_status b st) else dict_get k (ctx_agents c)) ->
  shut_inv rsd c0 (done ++ [n]) c'.
Proof.
  intros [[w0 Hlog] [Hnone Hsome]] Hb Htb Hst [w1 Hlog'] Hc'; split;
    [exists (w0 ++ w1); rewrite Hlog', Hlog, app_assoc; reflexivity|split].
  - intros k Hk; rewrite Hc'.
    destruct (String.eqb k n) eqn:E; [|exact (Hnone k Hk)].
    apply String.eqb_eq in E; subst k; rewrite (Hnone n Hk) in Hb; discriminate.
  - intros k a Hk; rewrite Hc', existsb_snoc_eqb.
    destruct (String.eqb k n) eqn:E.
    + apply String.eqb_eq in E; subst k.
      destruct (Hsome n a Hk) as [b' [Hb' Hrel]]; rewrite Hb in Hb'; injection Hb' as <-.
      exists (set_status b st); split; [reflexivity|].
      rewrite orb_true_r, andb_true_r.
      assert (Hab : a_runtime a = a_runtime b /\
                    forall s, set_status b s = set_status a s).
      { destruct (shutdown_target a && existsb (String.eqb n) done).
        - destruct Hrel as [st0 [-> _]]; split; [destruct a; reflexivity|].
          intros s; apply set_status_twice.
        - subst b; split; reflexivity. }
      destruct Hab as [Hrt Hset].
      destruct (shutdown_target a) eqn:Ht.
      * exists st; split; [apply Hset|].
        apply Hst; [exact Hrt|symmetry; apply Hset].
      * simpl in Hrel; subst b; rewrite Ht in Htb; discriminate Htb.
    + rewrite orb_false_r; exact (Hsome k a Hk).
Qed.

Lemma shut_inv_target rsd c0 done c (n : string) (a b : AgentInstance) :
  shut_inv rsd c0 done c -> dict_get n (ctx_agents c0) = Some a ->
  dict_get n (ctx_agents c) = Some b ->
  shutdown_target b = shutdown_target a.
Proof.
  intros [_ [_ Hsome]] Ha Hb.
  destruct (Hsome n a Ha) as [b' [Hb' Hrel]]; rewrite Hb in Hb'; injection Hb' as <-.
  destruct (shutdown_target a && existsb (String.eqb n) done) eqn:C; [|subst b; reflexivity].
  apply andb_prop in C as [Ht _].
  destruct Hrel as [st [-> (cx & rt & w & sp & Hrt & _ & _ & Hm)]].
  rewrite Ht; unfold shutdown_target in *; destruct a; simpl in *.
  destruct (rsd cx rt); subst st; destruct a_runtime0; try discriminate; reflexivity.
Qed.

Lemma shutdown_loop_inv rsd
    (Hrsd : forall cx rt e, rsd cx rt = Some e -> is_Exception e = true)
    (c0 : Context) :
  forall (names done : list string) (c c' : Context) r,
  shut_inv rsd c0 done c ->
  shutdown_loop rsd c names = (c', r) ->
  r = inr tt /\ shut_inv rsd c0 (done ++ names) c' /\
  ctx_started c' = ctx_started c.
Proof.
  induction names as [|n rest IH]; intros done c c' r Hinv H; simpl in H.
  - injection H as <- <-; rewrite app_nil_r; auto.
  - assert (Hskip : (forall a, dict_get n (ctx_agents c0) = Some a ->
                               shutdown_target a = false) ->
                    shutdown_loop rsd c rest = (c', r) ->
                    r = inr tt /\ shut_inv rsd c0 (done ++ n :: rest) c' /\
                    ctx_started c' = ctx_started c).
    { intros Hn Hl.
      destruct (IH (done ++ [n]) c c' r (shut_inv_skip rsd c0 done c n Hinv Hn) Hl)
        as [Hr [Hi Hs]].
      rewrite <- app_assoc in Hi; auto. }
    destruct (dict_get n (ctx_agents c)) as [b|] eqn:Hb.
    2:{ apply Hskip; [|exact H].
        intros a Ha; destruct (proj2 (proj2 Hinv) n a Ha) as [b' [Hb' _]]; congruence. }
    assert (Htgt : forall a, dict_get n (ctx_agents c0) = Some a ->
                             shutdown_target a = shutdown_target b)
      by (intros a Ha; symmetry; exact (shut_inv_target rsd c0 done c n a b Hinv Ha Hb)).
    destruct (a_runtime b) as [rt|] eqn:Hrt.
    2:{ apply Hskip; [|exact H].
        intros a Ha; rewrite (Htgt a Ha); unfold shutdown_target; rewrite Hrt; reflexivity. }
    destruct (negb (status_eqb (a_status b) LAZY)) eqn:Hl.
    2:{ apply Hskip; [|exact H].
        intros a Ha; rewrite (Htgt a Ha); unfold shutdown_target; rewrite Hrt; exact Hl. }
    assert (Htb : shutdown_target b = true) by (unfold shutdown_target; rewrite Hrt; exact Hl).
    set (c1 := write_status c n DESTROYING) in H.
    assert (Hlog1 : ctx_status_writes c1 = ctx_status_writes c ++ [(n, a_status b, DESTROYING)])
      by (unfold c1; rewrite write_status_writes, Hb; reflexivity).
    assert (Hcall : forall st,
              match rsd c1 rt with None => st = DESTROYED | Some _ => st = DESTROYING end ->
              forall a, a_runtime a = a_runtime b ->
              set_status a DESTROYING = set_status b DESTROYING ->
              shut_ok rsd (ctx_status_writes c0) n a st).
    { intros st Hm a Har Has.
      destruct (proj1 Hinv) as [w Hw].
      exists c1, rt, w, (a_status b); split; [congruence|split; [|split; [|exact Hm]]].
      - unfold c1; rewrite write_status_get, String.eqb_refl, Hb, Has; reflexivity.
      - rewrite Hlog1, Hw, <- app_assoc; reflexivity. }
    destruct (rsd c1 rt) as [e|] eqn:Hs.
    + destruct (is_Exception e) eqn:He; [|rewrite (Hrsd _ _ _ Hs) in He; discriminate].
      assert (Hi1 : shut_inv rsd c0 (done ++ [n]) c1).
      { apply (shut_inv_write rsd c0 done c c1 n b DESTROYING Hinv Hb Htb).
        - apply Hcall; reflexivity.
        - exists [(n, a_status b, DESTROYING)]; exact Hlog1.
        - intros k; unfold c1; rewrite write_status_get.
          destruct (String.eqb k n) eqn:E; [|reflexivity].
          apply String.eqb_eq in E; subst k; rewrite Hb; reflexivity. }
      destruct (IH _ _ _ _ Hi1 H) as [Hr [Hi Hst]].
      rewrite <- app_assoc in Hi; unfold c1 in Hst; rewrite write_status_started in Hst; auto.
    + assert (Hi1 : shut_inv rsd c0 (done ++ [n]) (write_status c1 n DESTROYED)).
      { apply (shut_inv_write rsd c0 done c _ n b DESTROYED Hinv Hb Htb).
        - apply Hcall; reflexivity.
        - rewrite write_status_writes.
          destruct (dict_get n (ctx_agents c1)) as [b1|];
            [exists [(n, a_status b, DESTROYING); (n, a_status b1, DESTROYED)]
            |exists [(n, a_status b, DESTROYING)]];
            rewrite Hlog1; [rewrite <- app_assoc|]; reflexivity.
        - intros k; unfold c1; rewrite !write_status_get.
          destruct (String.eqb k n) eqn:E; [|reflexivity].
          apply String.eqb_eq in E; subst k; rewrite String.eqb_refl, Hb; simpl.
          rewrite set_status_twice; reflexivity. }
      destruct (IH _ _ _ _ Hi1 H) as [Hr [Hi Hst]].
      rewrite <- app_assoc in Hi; unfold c1 in Hst; rewrite !write_status_started in Hst; auto.
Qed.

Lemma dict_get_existsb_keys {V} (k : string) (d : list (string * V)) (v : V) :
  dict_get k d = Some v -> existsb (String.eqb k) (map fst d) = true.
Proof.
  induction d as [|[k' v'] rest IH]; simpl; [discriminate|].
  destruct (String.eqb k k'); [reflexivity|exact IH].
Qed.

(** X22: when every runtime shutdown either returns or raises an
    [Exception], [shutdown] returns normally and marks the context
    stopped.  Every agent with a bound runtime and a status other than
    LAZY has its own runtime shut down, at a moment when its status has
    just been set DESTROYING, and ends DESTROYED if that call returned,
    DESTROYING if that call raised ([shut_ok]).  Every other agent (LAZY,
    or without a runtime) is left as it was, and no agent is added or
    removed. *)
Theorem shutdown_destroys_targets (rsd : Context -> RuntimeId -> option exc)
    (c c' : Context) r
    (Hrsd : forall cx rt e, rsd cx rt = Some e -> is_Exception e = true)
    (Hsd : shutdown rsd c = (c', r)) :
  r = inr tt /\ ctx_started c' = false /\
  forall k,
    match dict_get k (ctx_agents c) with
    | None => dict_get k (ctx_agents c') = None
    | Some a =>
        if shutdown_target a
        then exists st, dict_get k (ctx_agents c') = Some (set_status a st) /\
                        shut_ok rsd (ctx_status_writes c) k a st
        else dict_get k (ctx_agents c') = Some a
    end.
Proof.
  unfold shutdown in Hsd.
  destruct (shutdown_loop rsd c (map fst (ctx_agents c))) as [c1 r1] eqn:L.
  assert (H0 : shut_inv rsd c [] c).
  { split; [exists []; rewrite app_nil_r; reflexivity|split; [intros k Hk; exact Hk|]].
    intros k a Hk; exists a; split; [exact Hk|].
    rewrite andb_false_r; reflexivity. }
  destruct (shutdown_loop_inv rsd Hrsd c _ [] c c1 r1 H0 L)
    as [-> [[_ [Hnone Hsome]] _]].
  injection Hsd as <- <-; split; [reflexivity|split; [reflexivity|]].
  intros k; simpl.
  destruct (dict_get k (ctx_agents c)) as [a|] eqn:Hk; [|exact (Hnone k Hk)].
  destruct (Hsome k a Hk) as [b [Hb Hrel]]; simpl in Hrel.
  rewrite (dict_get_existsb_keys k (ctx_agents c) a Hk), andb_true_r in Hrel.
  destruct (shutdown_target a).
  - destruct Hrel as [st [-> Hst]]; exists st; split; [exact Hb|exact Hst].
  - subst b; exact Hb.
Qed.

(** A context with a READY agent bound to a runtime, a LAZY agent and an
    agent without a runtime. *)
Definition mixed_ctx : Context :=
  mkCtx [("a", mkAgent "a" (Some "claude-code") READY 0 0 0);
         ("b", mkAgent "b" None LAZY 0 0 0);
         ("c", mkAgent "c" None REGISTERED 0 0 0)] [] true 0 true [].

Lemma shutdown_destroys_targets_witness :
  let rsd := fun (_ : Context) (_ : RuntimeId) => @None exc in
  (forall cx rt e, rsd cx rt = Some e -> is_Exception e = true) /\
  shutdown rsd mixed_ctx = (fst (shutdown rsd mixed_ctx), snd (shutdown rsd mixed_ctx)) /\
  snd (shutdown rsd mixed_ctx) = inr tt /\ ctx_started (fst (shutdown rsd mixed_ctx)) = false /\
  forall k,
    match dict_get k (ctx_agents mixed_ctx) with
    | None => dict_get k (ctx_agents (fst (shutdown rsd mixed_ctx))) = None
    | Some a =>
        if shutdown_target a
        then exists st, dict_get k (ctx_agents (fst (shutdown rsd mixed_ctx)))
                        = Some (set_status a st) /\
                        shut_ok rsd (ctx_status_writes mixed_ctx) k a st
        else dict_get k (ctx_agents (fst (shutdown rsd mixed_ctx))) = Some a
    end.
Proof.
  intros rsd.
  assert (H1 : forall cx rt e, rsd cx rt = Some e -> is_Exception e = true)
    by (intros cx rt e H; discriminate H).
  assert (H2 : shutdown rsd mixed_ctx = (fst (shutdown rsd mixed_ctx), snd (shutdown rsd mixed_ctx)))
    by reflexivity.
  split; [exact H1|split; [exact H2|]].
  exact (shutdown_destroys_targets rsd mixed_ctx _ _ H1 H2).
Defined.

(** ** server/app.py : the synchronous execute route *)

(** The response of [POST /api/agents/{name}/execute] in its default
    (synchronous) mode: the result dict, or an [HTTPException]. *)
Inductive ExecuteResponse :=
| ExecOk (res : ExecuteResult)
| ExecHttpError (code : Z) (detail : string).

(** [execute_agent] without [?async=true] and without an
    [Accept: text/event-stream] header: [KeyError] becomes a 404,
    [RuntimeError] a 500; any other exception escapes the route (an
    [OtherException] here is one of neither class). *)
Definition execute_agent_route rex (cf : AgentManifest -> option exc) (c : Context)
    (name prompt su eu : string) : Context * (exc + ExecuteResponse) :=
  match execute rex cf c name prompt su eu with
  | (c1, inr res) => (c1, inr (ExecOk res))
  | (c1, inl (KeyError m)) => (c1, inr (ExecHttpError 404 m))
  | (c1, inl (RuntimeError m)) => (c1, inr (ExecHttpError 500 m))
  | (c1, inl e) => (c1, inl e)
  end.

(** X23: the synchronous execute route answers 404 for an agent name that is
    not registered, and 500 for a registered agent without a runtime that
    is not lazily creatable (not LAZY, or no manifest, or no factory); in
    both cases the runtime is never called and the context is unchanged. *)
Theorem execute_route_error_codes rex (cf : AgentManifest -> option exc) (c : Context)
    (name prompt su eu : string) :
  (dict_get name (ctx_agents c) = None ->
   execute_agent_route rex cf c name prompt su eu
   = (c, inr (ExecHttpError 404 "agent not registered"))) /\
  (forall a, dict_get name (ctx_agents c) = Some a -> a_runtime a = None ->
   (a_status a <> LAZY \/ dict_get name (ctx_manifests c) = None \/
    ctx_has_factory c = false) ->
   execute_agent_route rex cf c name prompt su eu
   = (c, inr (ExecHttpError 500 "runtime not initialised"))).
Proof.
  unfold execute_agent_route, execute, resolve_agent, get_agent; split.
  - intros H; rewrite H; reflexivity.
  - intros a Ha Hrt Hlazy; rewrite Ha.
    destruct (status_eqb (a_status a) LAZY) eqn:E.
    + apply status_eqb_eq in E.
      destruct Hlazy as [Hn|[Hm|Hf]]; [contradiction|rewrite Hm|rewrite Hf];
        [|destruct (dict_get name (ctx_manifests c))]; rewrite Hrt; reflexivity.
    + rewrite Hrt; reflexivity.
Qed.

Lemma execute_route_error_codes_witness :
  (dict_get "zzz" (ctx_agents mixed_ctx) = None /\
   execute_agent_route (fun _ _ _ => RReturn (mkResult "ok" 0 0 "m" None)) (fun _ => None)
     mixed_ctx "zzz" "hi" "u1" "u2"
   = (mixed_ctx, inr (ExecHttpError 404 "agent not registered"))) /\
  (dict_get "c" (ctx_agents mixed_ctx) = Some (mkAgent "c" None REGISTERED 0 0 0) /\
   execute_agent_route (fun _ _ _ => RReturn (mkResult "ok" 0 0 "m" None)) (fun _ => None)
     mixed_ctx "c" "hi" "u1" "u2"
   = (mixed_ctx, inr (ExecHttpError 500 "runtime not initialised"))).
Proof.
  destruct (execute_route_error_codes (fun _ _ _ => RReturn (mkResult "ok" 0 0 "m" None))
              (fun _ => None) mixed_ctx "zzz" "hi" "u1" "u2") as [H404 _].
  destruct (execute_route_error_codes (fun _ _ _ => RReturn (mkResult "ok" 0 0 "m" None))
              (fun _ => None) mixed_ctx "c" "hi" "u1" "u2") as [_ H500].
  split; split; [reflexivity|apply H404; reflexivity|reflexivity|].
  apply (H500 (mkAgent "c" None REGISTERED 0 0 0)); [reflexivity|reflexivity|].
  left; discriminate.
Defined.

(** ** server/app.py : ConnectionManager *)

(** A WebSocket, compared by identity. *)
Definition WsId := nat.

Record ConnectionManager := mkConnMgr { cm_connections : list WsId }.

(** [list.remove(x)]: drop the first occurrence, ValueError if none. *)
Fixpoint list_remove (x : WsId) (l : list WsId) : exc + list WsId :=
  match l with
  | [] => inl (ValueError "list.remove(x): x not in list")
  | y :: rest =>
      if Nat.eqb y x then inr rest
      else match list_remove x rest with
           | inl e => inl e
           | inr r => inr (y :: r)
           end
  end.

(** [ConnectionManager.connect(ws)]: [accept ws] is [Some e] when
    [await ws.accept()] raises [e]. *)
Definition connect (accept : WsId -> option exc) (cm : ConnectionManager) (ws : WsId)
  : ConnectionManager * (exc + unit) :=
  match accept ws with
  | Some e => (cm, inl e)
  | None => (mkConnMgr (cm_connections cm ++ [ws]), inr tt)
  end.

(** [ConnectionManager.disconnect(ws)] *)
Definition disconnect (cm : ConnectionManager) (ws : WsId)
  : ConnectionManager * (exc + unit) :=
  match list_remove ws (cm_connections cm) with
  | inl e => (cm, inl e)
  | inr l => (mkConnMgr l, inr tt)
  end.

(** The send loop of [broadcast]: the [dead] list, or a [BaseException]
    that is not an [Exception], which escapes. [send ws] is [Some e] when
    [await ws.send_json(data)] raises [e]. *)
Fixpoint collect_dead (send : WsId -> option exc) (conns : list WsId) : exc + list WsId :=
  match conns with
  | [] => inr []
  | ws :: rest =>
      match send ws with
      | None => collect_dead send rest
      | Some e =>
          if is_Exception e then
            match collect_dead send rest with
            | inl e' => inl e'
            | inr dead => inr (ws :: dead)
            end
          else inl e
      end
  end.

(** [for ws in dead: self._connections.remove(ws)]: the list as left by
    the loop, and the ValueError of a failed [remove]. *)
Fixpoint remove_each (dead l : list WsId) : list WsId * (exc + unit) :=
  match dead with
  | [] => (l, inr tt)
  | ws :: rest =>
      match list_remove ws l with
      | inl e => (l, inl e)
      | inr l' => remove_each rest l'
      end
  end.

(** [ConnectionManager.broadcast(data)] *)
Definition broadcast (send : WsId -> option exc) (cm : ConnectionManager)
  : ConnectionManager * (exc + unit) :=
  match collect_dead send (cm_connections cm) with
  | inl e => (cm, inl e)
  | inr dead =>
      let '(l, r) := remove_each dead (cm_connections cm) in (mkConnMgr l, r)
  end.

(** ** Properties of the connection manager *)

Definition send_failed (send : WsId -> option exc) (ws : WsId) : bool :=
  match send ws with Some _ => true | None => false end.

Lemma collect_dead_exceptions (send : WsId -> option exc) (l : list WsId)
    (Hexc : forall ws e, send ws = Some e -> is_Exception e = true) :
  collect_dead send l = inr (filter (send_failed send) l).
Proof.
  induction l as [|ws rest IH]; simpl; [reflexivity|].
  unfold send_failed at 1; destruct (send ws) as [e|] eqn:Hs; [|exact IH].
  rewrite (Hexc ws e Hs), IH; reflexivity.
Qed.

Lemma list_remove_absent (x : WsId) (l : list WsId) :
  ~ In x l -> list_remove x l = inl (ValueError "list.remove(x): x not in list").
Proof.
  induction l as [|y rest IH]; intros Hn; simpl; [reflexivity|].
  destruct (Nat.eqb y x) eqn:E.
  - apply Nat.eqb_eq in E; subst y; exfalso; apply Hn; left; reflexivity.
  - rewrite IH; [reflexivity|intros Hin; apply Hn; right; exact Hin].
Qed.

Lemma remove_each_cons_absent (x : WsId) (dead l : list WsId) :
  ~ In x dead ->
  remove_each dead (x :: l) = let '(l', r) := remove_each dead l in (x :: l', r).
Proof.
  revert l; induction dead as [|y rest IH]; intros l Hn; simpl; [reflexivity|].
  destruct (Nat.eqb x y) eqn:E.
  - apply Nat.eqb_eq in E; subst y; exfalso; apply Hn; left; reflexivity.
  - destruct (list_remove y l) as [e|l'].
    + reflexivity.
    + apply IH; intros Hin; apply Hn; right; exact Hin.
Qed.

Lemma remove_each_filter (send : WsId -> option exc) (l : list WsId) :
  NoDup l ->
  remove_each (filter (send_failed send) l) l
  = (filter (fun ws => negb (send_failed send ws)) l, inr tt).
Proof.
  induction l as [|x rest IH]; intros Hnd; simpl; [reflexivity|].
  inversion Hnd as [|? ? Hnin Hnd']; subst.
  destruct (send_failed send x) eqn:F; simpl.
  - rewrite Nat.eqb_refl; exact (IH Hnd').
  - rewrite remove_each_cons_absent, (IH Hnd'); [reflexivity|].
    intros Hin; apply filter_In in Hin as [Hin _]; exact (Hnin Hin).
Qed.

Lemma broadcast_filter (send : WsId -> option exc) (cm : ConnectionManager)
    (Hexc : forall ws e, send ws = Some e -> is_Exception e = true)
    (Hnd : NoDup (cm_connections cm)) :
  broadcast send cm =
  (mkConnMgr (filter (fun ws => negb (send_failed send ws)) (cm_connections cm)), inr tt).
Proof.
  unfold broadcast; rewrite collect_dead_exceptions by exact Hexc.
  rewrite remove_each_filter by exact Hnd; reflexivity.
Qed.

(** X24: when every failed send raises an [Exception] and no WebSocket is
    connected twice, [broadcast] returns normally and keeps exactly the
    connections whose send succeeded, in their order. *)
Theorem broadcast_keeps_live (send : WsId -> option exc) (cm : ConnectionManager)
    (Hexc : forall ws e, send ws = Some e -> is_Exception e = true)
    (Hnd : NoDup (cm_connections cm)) :
  broadcast send cm =
  (mkConnMgr (filter (fun ws => negb (send_failed send ws)) (cm_connections cm)), inr tt).
Proof.
  exact (broadcast_filter send cm Hexc Hnd).
Qed.

Definition closed_socket_send (ws : WsId) : option exc :=
  if Nat.eqb ws 2 then Some (RuntimeError "socket closed") else None.

Lemma closed_socket_send_exceptions :
  forall ws e, closed_socket_send ws = Some e -> is_Exception e = true.
Proof.
  intros ws e H; unfold closed_socket_send in H.
  destruct (Nat.eqb ws 2); [injection H as <-; reflexivity|discriminate H].
Qed.

Lemma broadcast_keeps_live_witness :
  NoDup (cm_connections (mkConnMgr [1; 2; 3]%nat)) /\
  broadcast closed_socket_send (mkConnMgr [1; 2; 3]%nat) =
  (mkConnMgr (filter (fun ws => negb (send_failed closed_socket_send ws)) [1; 2; 3]%nat),
   inr tt).
Proof.
  assert (H : NoDup (cm_connections (mkConnMgr [1; 2; 3]%nat))).
  { simpl; repeat constructor; simpl; intuition discriminate. }
  split; [exact H|].
  exact (broadcast_keeps_live closed_socket_send (mkConnMgr [1; 2; 3]%nat)
           closed_socket_send_exceptions H).
Defined.

Lemma list_remove_snoc_absent (x : WsId) (l : list WsId) :
  ~ In x l -> list_remove x (l ++ [x]) = inr l.
Proof.
  induction l as [|y rest IH]; intros Hn; simpl; [rewrite Nat.eqb_refl; reflexivity|].
  destruct (Nat.eqb y x) eqn:E.
  - apply Nat.eqb_eq in E; subst y; exfalso; apply Hn; left; reflexivity.
  - rewrite IH; [reflexivity|intros Hin; apply Hn; right; exact Hin].
Qed.

(** X25: connecting a WebSocket that is not yet connected and then
    disconnecting it gives back the connection list it started from. *)
Theorem connect_then_disconnect (accept : WsId -> option exc) (cm : ConnectionManager)
    (ws : WsId) (Hnew : ~ In ws (cm_connections cm)) (Haccept : accept ws = None) :
  let '(cm1, r1) := connect accept cm ws in
  r1 = inr tt /\ disconnect cm1 ws = (cm, inr tt).
Proof.
  unfold connect; rewrite Haccept; split; [reflexivity|].
  unfold disconnect; simpl; rewrite (list_remove_snoc_absent ws _ Hnew).
  destruct cm; reflexivity.
Qed.

Lemma connect_then_disconnect_witness :
  ~ In 4%nat (cm_connections (mkConnMgr [1; 2; 3]%nat)) /\
  let '(cm1, r1) := connect (fun _ => None) (mkConnMgr [1; 2; 3]%nat) 4%nat in
  r1 = inr tt /\ disconnect cm1 4%nat = (mkConnMgr [1; 2; 3]%nat, inr tt).
Proof.
  assert (H : ~ In 4%nat (cm_connections (mkConnMgr [1; 2; 3]%nat)))
    by (simpl; intuition discriminate).
  split; [exact H|].
  exact (connect_then_disconnect (fun _ => None) (mkConnMgr [1; 2; 3]%nat) 4%nat H eq_refl).
Defined.

(** X26: a WebSocket that [broadcast] dropped after a failed send is no
    longer in the list, so the [disconnect] the endpoint calls for it
    when the client goes away raises ValueError (and changes nothing). *)
Theorem broadcast_then_disconnect_raises (send : WsId -> option exc)
    (cm : ConnectionManager) (ws : WsId) (e : exc)
    (Hexc : forall ws e, send ws = Some e -> is_Exception e = true)
    (Hnd : NoDup (cm_connections cm)) (Hfail : send ws = Some e) :
  let cm1 := fst (broadcast send cm) in
  disconnect cm1 ws = (cm1, inl (ValueError "list.remove(x): x not in list")).
Proof.
  cbv zeta; rewrite (broadcast_filter send cm Hexc Hnd); simpl.
  unfold disconnect; simpl; rewrite list_remove_absent; [reflexivity|].
  intros Hin; apply filter_In in Hin as [_ Hg].
  unfold send_failed in Hg; rewrite Hfail in Hg; discriminate Hg.
Qed.

Lemma broadcast_then_disconnect_raises_witness :
  NoDup (cm_connections (mkConnMgr [1; 2; 3]%nat)) /\
  closed_socket_send 2%nat = Some (RuntimeError "socket closed") /\
  let cm1 := fst (broadcast closed_socket_send (mkConnMgr [1; 2; 3]%nat)) in
  disconnect cm1 2%nat = (cm1, inl (ValueError "list.remove(x): x not in list")).
Proof.
  assert (H : NoDup (cm_connections (mkConnMgr [1; 2; 3]%nat))).
  { simpl; repeat constructor; simpl; intuition discriminate. }
  split; [exact H|split; [reflexivity|]].
  exact (broadcast_then_disconnect_raises closed_socket_send (mkConnMgr [1; 2; 3]%nat) 2%nat
           (RuntimeError "socket closed") closed_socket_send_exceptions H eq_refl).
Defined.
